(** * track_squishmallows.py: a shallow embedding and its properties

    The script scrapes one search page, keeps the listings of the small
    sizes, compares their prices with the snapshot saved by the previous
    run, mails the differences and overwrites the snapshot.

    Python values are modelled as follows.
    - [str] is [string] (8-bit characters); [x in text] on strings is
      [str_in], [text[:80]] is [slice_to 80].
    - [float] is the primitive binary64 type [float]; [a != b] on floats
      is the negation of IEEE equality, [py_ne].
    - [dict] with string keys is [gmap string _], [set] is [gset string].
    - [None]-or-value is [option]; a [bs4] tag is always truthy, so
      [if el:] on the result of [select_one]/[find] is a test for [Some].
    - the file system, the SMTP server and the HTTP server are a [world]
      and an [external] record; exceptions are the [Raise] result, in the
      loop of [scrape_items] as in the run. *)

From Stdlib Require Import ZArith NArith Floats Ascii String.
From stdpp Require Import gmap strings list fin_maps pretty.

(** ** Strings *)

Module Str.

(** [is_prefix p s]: [s.startswith(p)]. *)
Fixpoint is_prefix (p s : string) : bool :=
  match p, s with
  | EmptyString, _ => true
  | String a p', String b s' => if decide (a = b) then is_prefix p' s' else false
  | String _ _, EmptyString => false
  end.

(** [str_in needle hay]: Python's [needle in hay] on strings, substring
    containment, scanning the positions of [hay] from the left. *)
Fixpoint str_in (needle hay : string) : bool :=
  is_prefix needle hay ||
  match hay with
  | EmptyString => false
  | String _ hay' => str_in needle hay'
  end.

(** [slice_to n s]: [s[:n]]. *)
Fixpoint slice_to (n : nat) (s : string) : string :=
  match n, s with
  | S n', String c s' => String c (slice_to n' s')
  | _, _ => EmptyString
  end.

(** [join sep parts]: [sep.join(parts)]. *)
Fixpoint join (sep : string) (parts : list string) : string :=
  match parts with
  | [] => ""
  | [p] => p
  | p :: ps => p +:+ sep +:+ join sep ps
  end.

(** Truthiness of a string: non-empty. *)
Definition truthy (s : string) : bool :=
  match s with EmptyString => false | String _ _ => true end.

(** The declarative reading of containment. *)
Definition substring_of (needle hay : string) : Prop :=
  ∃ pre post, hay = pre +:+ needle +:+ post.

End Str.

Import Str.

(** ** Configuration constants (lines 13-24) *)

Definition SEARCH_URL : string := "https://www.frysfood.com/q/squishmallow".
Definition STATE_FILE : string := "last_prices.json".
Definition SMALL_SIZES : list string :=
  ["2.5 in"; "4 in"; "5 in"; "6 in"; "7 in"; "8 in"].
Definition SMTP_SERVER : string := "smtp.gmail.com".
Definition SMTP_PORT : Z := 587.

(** ** Prices: [parse_price] (lines 62-64) *)

Module Price.

(** [\d] on this character type: the ten ASCII digits. *)
Definition is_digit (c : ascii) : bool :=
  let n := N_of_ascii c in ((48 <=? n) && (n <=? 57))%N.

Definition digit_value (c : ascii) : N := (N_of_ascii c - 48)%N.

(** [\.\d{2}] at the head of [s]; the matched text on success. *)
Definition match_frac (s : string) : option string :=
  match s with
  | String p (String d1 (String d2 _)) =>
      if decide (p = "."%char) then
        if is_digit d1 && is_digit d2
        then Some (String p (String d1 (String d2 "")))
        else None
      else None
  | _ => None
  end.

(** [[\d]*\.\d{2}] at the head of [s], after a first digit was consumed:
    the repetition is greedy, and on failure of what follows it gives
    back one character at a time. *)
Fixpoint match_more (s : string) : option string :=
  match s with
  | String c s' =>
      if is_digit c then
        match match_more s' with
        | Some g => Some (String c g)
        | None => match_frac s
        end
      else match_frac s
  | EmptyString => match_frac s
  end.

(** The whole pattern [\$([\d]+\.\d{2})] at the head of [s]; the result
    is group 1. *)
Definition match_here (s : string) : option string :=
  match s with
  | String dollar (String c s') =>
      if decide (dollar = "$"%char) then
        if is_digit c then String c <$> match_more s' else None
      else None
  | _ => None
  end.

(** [re.search]: the match at the leftmost position where one exists. *)
Fixpoint re_search (text : string) : option string :=
  match match_here text with
  | Some g => Some g
  | None =>
      match text with
      | EmptyString => None
      | String _ text' => re_search text'
      end
  end.

(** [float(g)] for [g] a run of digits with an optional point: the
    binary64 value nearest to the decimal (ties to even, infinity past
    the largest finite value).  [num] is the digits read as one integer,
    [scale] the power of ten for the digits after the point. *)
Fixpoint read_decimal (s : string) (num scale : N) (frac : bool) : N * N :=
  match s with
  | EmptyString => (num, scale)
  | String c s' =>
      if is_digit c
      then read_decimal s' (10 * num + digit_value c)%N
                        (if frac then 10 * scale else scale)%N frac
      else read_decimal s' num scale true
  end.

Definition float_of_ratio (num den : N) : float :=
  match num, den with
  | Npos n, Npos d =>
      SF2Prim (SFdiv prec emax (S754_finite false n 0) (S754_finite false d 0))
  | _, _ => 0%float
  end.

Definition py_float (g : string) : float :=
  let '(num, scale) := read_decimal g 0%N 1%N false in
  float_of_ratio num scale.

Definition parse_price (text : string) : option float :=
  py_float <$> re_search text.

(** [a != b] on two floats. *)
Definition py_ne (a b : float) : bool := negb (PrimFloat.eqb a b).

(** The language of the pattern's group: one or more digits, a point,
    two digits. *)
Definition all_digits (s : string) : Prop :=
  ∀ c, c ∈ list_ascii_of_string s → is_digit c = true.

Definition amount (g : string) : Prop :=
  ∃ ds d1 d2, ds ≠ "" ∧ all_digits ds ∧ is_digit d1 = true ∧ is_digit d2 = true ∧
    g = ds +:+ String "."%char (String d1 (String d2 "")).

(** [text] has a dollar sign followed by such an amount somewhere. *)
Definition has_dollar_amount (text : string) : Prop :=
  ∃ g, amount g ∧ substring_of (String "$"%char g) text.

End Price.

Import Price.

Definition is_small_size (text : string) : option string :=
  List.find (λ size, str_in size text) SMALL_SIZES.

(** ** Data model *)

(** One item of a run, the dict appended at lines 124-130. *)
Record Item := {
  item_key : string;
  item_name : string;
  item_size : string;
  item_price : float;
  item_url : string;
}.

(** One snapshot value, the dict stored at lines 144-149. *)
Record Entry := {
  entry_name : string;
  entry_size : string;
  entry_price : float;
  entry_url : string;
}.

(** One changed item, the dict appended at lines 154-160. *)
Record ChangedItem := {
  changed_name : string;
  changed_size : string;
  changed_url : string;
  changed_old_price : float;
  changed_price : float;
}.

(** The snapshot: key to entry. *)
Abbreviation Snapshot := (gmap string Entry).

(** What the loop of [scrape_items] reads from one candidate block
    through [bs4]:
    - [card_text]: [card.get_text(" ", strip=True)];
    - [card_name_el]: the [get_text(strip=True)] of
      [card.select_one('[data-qa="product-name"]')], when there is one;
    - [card_tag_texts]: the [get_text(strip=True)] of every tag of
      [card.find_all(["h2", "h3", "h4", "strong", "a"])], in order;
    - [card_price_el]: the [get_text(" ", strip=True)] of
      [card.select_one('[data-qa="product-price"], [class*="Price"]')];
    - [card_href]: the [href] of [card.find("a", href=True)]. *)
Record card := {
  card_text : string;
  card_name_el : option string;
  card_tag_texts : list string;
  card_price_el : option string;
  card_href : option string;
}.

(** The parsed page: the two queries of line 81. *)
Record soup := {
  soup_select : list card;
  soup_find_all_li : list card;
}.

(** The message handed to [send_message]. *)
Record email := {
  email_subject : string;
  email_from : string;
  email_to : string;
  email_body : string;
}.

(** The exceptions that end a run: of [requests], of [json.load], of
    [smtplib], and the one [urljoin] raises. *)
Inductive exn := RequestException | JSONDecodeError | SMTPException | ValueError.

Inductive result (A : Type) :=
  | Ok (a : A)
  | Raise (e : exn).
Arguments Ok {A} a.
Arguments Raise {A} e.

#[global] Instance result_ret : MRet result := λ A a, Ok a.
#[global] Instance result_bind : MBind result := λ A B f r,
  match r with
  | Ok a => f a
  | Raise e => Raise e
  end.
#[global] Instance result_fmap : FMap result := λ A B f r,
  match r with
  | Ok a => Ok (f a)
  | Raise e => Raise e
  end.

(** Functions of Python's libraries that the script calls and whose
    text formats the properties do not depend on:
    - [urljoin base href]: [urllib.parse.urljoin]; [None] stands for the
      references on which it raises [ValueError] (a bracket in the host
      part that is not closed, as in [//[]);
    - [str_of_float]: the text of a float in an f-string;
    - [json_dump]: the text [json.dump(state, f, indent=2)] writes;
    - [json_load]: [json.load] on a state file, read as a snapshot;
      [None] stands for a text that [json.load] refuses.  The state file
      is taken to have the shape [save_state] gives it, a mapping from
      key to name, size, price and url. *)
Class Library := {
  urljoin : string → string → option string;
  str_of_float : float → string;
  json_dump : Snapshot → string;
  json_load : string → option Snapshot;
}.

(** ** The extractor: the loop of [scrape_items] (lines 80-132) *)

Section Extractor.
Context {lib : Library}.

(** Line 87: the block is skipped when this is [true]. *)
Definition lacks_keyword (text : string) : bool :=
  negb (str_in "Squishmallow" text) && negb (str_in "Squishmallows" text).

(** Lines 90-101. *)
Definition card_name (c : card) : string :=
  match card_name_el c with
  | Some txt => txt
  | None =>
      match List.find (str_in "Squish") (card_tag_texts c) with
      | Some txt => if truthy txt then txt else slice_to 80 (card_text c)
      | None => slice_to 80 (card_text c)
      end
  end.

(** Line 108. *)
Definition card_price_text (c : card) : string :=
  match card_price_el c with
  | Some txt => txt
  | None => card_text c
  end.

(** Lines 113-117; [urljoin] may raise. *)
Definition card_url (c : card) : result string :=
  match card_href c with
  | Some href =>
      match urljoin SEARCH_URL href with
      | Some url => Ok url
      | None => Raise ValueError
      end
  | None => Ok SEARCH_URL
  end.

(** One iteration of the loop at line 85 on the pair [(items, seen)];
    every [continue] returns the pair as it is, and an exception of
    line 115 ends the loop. *)
Definition scrape_card (st : list Item * gset string) (c : card)
  : result (list Item * gset string) :=
  let '(items, seen) := st in
  let text := card_text c in
  if lacks_keyword text then Ok st else
  let name := card_name c in
  match is_small_size text with
  | None => Ok st
  | Some size =>
      match parse_price (card_price_text c) with
      | None => Ok st
      | Some price =>
          url ← card_url c;
          let key := url in
          if decide (key ∈ seen) then Ok st else
          Ok (items ++ [ {| item_key := key; item_name := name; item_size := size;
                            item_price := price; item_url := url |} ],
              {[ key ]} ∪ seen)
      end
  end.

(** The loop at line 85 from a given state. *)
Fixpoint scrape_loop (st : list Item * gset string) (product_cards : list card)
  : result (list Item * gset string) :=
  match product_cards with
  | [] => Ok st
  | c :: rest => st' ← scrape_card st c; scrape_loop st' rest
  end.

Definition scrape_cards (product_cards : list card) : result (list Item) :=
  fst <$> scrape_loop ([], ∅) product_cards.

(** Line 81: [soup.select(...) or soup.find_all("li")]. *)
Definition product_cards (page : soup) : list card :=
  match soup_select page with
  | [] => soup_find_all_li page
  | _ :: _ => soup_select page
  end.

(** What one block comes to, with every test of the iteration but the
    one on [seen]: it is skipped ([Ok None]), it yields an item, or it
    raises. *)
Definition extract (c : card) : result (option Item) :=
  if lacks_keyword (card_text c) then Ok None else
  match is_small_size (card_text c) with
  | None => Ok None
  | Some size =>
      match parse_price (card_price_text c) with
      | None => Ok None
      | Some price =>
          url ← card_url c;
          Ok (Some {| item_key := url; item_name := card_name c;
                      item_size := size; item_price := price;
                      item_url := url |})
      end
  end.

(** The items of the accepted blocks of a page, in order, when no block
    raises. *)
Fixpoint extract_all (product_cards : list card) : result (list Item) :=
  match product_cards with
  | [] => Ok []
  | c :: rest =>
      o ← extract c; accepted ← extract_all rest;
      Ok (option_list o ++ accepted)
  end.

End Extractor.

(** ** The world of a run *)

(** The module-level reads of [os.environ] (lines 19-21). *)
Record config := {
  EMAIL_USER : option string;
  EMAIL_PASS : option string;
  ALERT_TO : option string;
}.

(** What the servers answer.  [http_get url] is the parsed body of the
    response, or [None] when [requests.get] or [raise_for_status]
    raises; [smtp_session server port user password msg] tells whether
    the session of lines 57-60 goes through without raising. *)
Record external := {
  http_get : string → option soup;
  smtp_session : string → Z → string → string → email → bool;
}.

(** The input/output of the script, recorded so that statements can
    speak of what a run did and in which order: the request of line 76,
    the SMTP session of lines 57-60 with its outcome, the write of
    line 36. *)
Inductive event :=
  | EvHttpGet (url : string)
  | EvSmtp (msg : email) (delivered : bool)
  | EvWrite (path content : string).

(** The files by path, and the input/output done so far, oldest first. *)
Record world := {
  files : gmap string string;
  trace : list event;
}.

(** Computations: the world goes in, a result and the world come out; a
    raised exception keeps the effects done before it. *)
Definition M (A : Type) : Type := world → result A * world.

#[global] Instance M_ret : MRet M := λ A a w, (Ok a, w).
#[global] Instance M_bind : MBind M := λ A B f m w,
  match m w with
  | (Ok a, w') => f a w'
  | (Raise e, w') => (Raise e, w')
  end.

Definition emit (e : event) : M unit :=
  λ w, (Ok tt, {| files := files w; trace := trace w ++ [e] |}).

Definition raise {A} (e : exn) : M A := λ w, (Raise e, w).

(** The messages delivered in a trace, and the events of each kind. *)
Definition is_smtp (e : event) : bool :=
  match e with EvSmtp _ _ => true | _ => false end.
Definition is_write (e : event) : bool :=
  match e with EvWrite _ _ => true | _ => false end.
Definition delivered (tr : list event) : list email :=
  omap (λ e, match e with EvSmtp m true => Some m | _ => None end) tr.

Definition opt_truthy (o : option string) : bool :=
  match o with Some s => truthy s | None => false end.

Definition nl : string := String (ascii_of_nat 10) "".

Section Run.
Context {lib : Library} (cfg : config) (ext : external).

(** Lines 28-32. *)
Definition load_state : M Snapshot := λ w,
  match files w !! STATE_FILE with
  | None => (Ok ∅, w)
  | Some content =>
      match json_load content with
      | Some state => (Ok state, w)
      | None => (Raise JSONDecodeError, w)
      end
  end.

(** Lines 34-36: mode ["w"] replaces the file's contents; the write is
    taken to succeed. *)
Definition save_state (state : Snapshot) : M unit := λ w,
  let content := json_dump state in
  (Ok tt, {| files := <[STATE_FILE := content]> (files w);
             trace := trace w ++ [EvWrite STATE_FILE content] |}).

(** Lines 44-49: the block of one changed item. *)
Definition alert_lines (item : ChangedItem) : string :=
  changed_name item +:+ " (" +:+ changed_size item +:+ ")" +:+ nl +:+
  "Old price: " +:+ str_of_float (changed_old_price item) +:+ nl +:+
  "New price: " +:+ str_of_float (changed_price item) +:+ nl +:+
  "Link: " +:+ changed_url item +:+ nl.

(** Lines 57-60. *)
Definition smtp_send (user pass : string) (msg : email) : M unit :=
  let ok := smtp_session ext SMTP_SERVER SMTP_PORT user pass msg in
  _ ← emit (EvSmtp msg ok);
  if ok then mret tt else raise SMTPException.

(** Lines 38-60. *)
Definition send_alert (changed_items : list ChangedItem) : M unit :=
  if bool_decide (changed_items = []) ||
     negb (opt_truthy (EMAIL_USER cfg) && opt_truthy (EMAIL_PASS cfg) &&
           opt_truthy (ALERT_TO cfg))
  then mret tt
  else
    let body := join (nl +:+ "---" +:+ nl) (alert_lines <$> changed_items) in
    let msg := {|
      email_subject := "[Fry's] Squishmallow price changes (" +:+
                       pretty (length changed_items) +:+ " item(s))";
      email_from := default "" (EMAIL_USER cfg);
      email_to := default "" (ALERT_TO cfg);
      email_body := body |} in
    smtp_send (default "" (EMAIL_USER cfg)) (default "" (EMAIL_PASS cfg)) msg.

(** Lines 72-132. *)
Definition scrape_items : M (list Item) :=
  _ ← emit (EvHttpGet SEARCH_URL);
  match http_get ext SEARCH_URL with
  | None => raise RequestException
  | Some page =>
      match scrape_cards (product_cards page) with
      | Ok items => mret items
      | Raise e => raise e
      end
  end.

(** One iteration of the loop at line 141 on [(new_state, changed)]. *)
Definition diff_item (old_state : Snapshot)
    (acc : Snapshot * list ChangedItem) (item : Item)
  : Snapshot * list ChangedItem :=
  let '(new_state, changed) := acc in
  let key := item_key item in
  let price := item_price item in
  let new_state :=
    <[key := {| entry_name := item_name item; entry_size := item_size item;
                entry_price := price; entry_url := item_url item |}]> new_state in
  match old_state !! key with
  | Some e =>
      let old_price := entry_price e in
      if py_ne price old_price then
        (new_state,
         changed ++ [ {| changed_name := item_name item;
                         changed_size := item_size item;
                         changed_url := item_url item;
                         changed_old_price := old_price;
                         changed_price := price |} ])
      else (new_state, changed)
  | None => (new_state, changed)
  end.

(** Lines 138-160. *)
Definition diff (old_state : Snapshot) (current_items : list Item)
  : Snapshot * list ChangedItem :=
  foldl (diff_item old_state) (∅, []) current_items.

(** Line 163: [old_state and changed]. *)
Definition alert_due (old_state : Snapshot) (changed : list ChangedItem) : bool :=
  negb (bool_decide (old_state = ∅)) && negb (bool_decide (changed = [])).

(** Lines 134-166. *)
Definition main : M unit :=
  old_state ← load_state;
  current_items ← scrape_items;
  let '(new_state, changed) := diff old_state current_items in
  _ ← (if alert_due old_state changed then send_alert changed else mret tt);
  save_state new_state.

End Run.

(** ** A library to run the script on concrete inputs

    An executable [Library]: [repr] of floats by shortest round-trip
    digits, the snapshot as JSON text in the layout of [indent=2]
    (members in the order of the map's keys) with a reader for it, and
    [urljoin] for the references of the sample page.  The properties
    hold for every [Library]; this one serves the examples. *)

Module PyRef.

Local Open Scope N_scope.

(** The exact value [num / den] of a positive finite float. *)
Definition exact_ratio (m : positive) (e : Z) : N * N :=
  match e with
  | Zneg p => (Npos m, 2 ^ Npos p)
  | _ => (Npos m * 2 ^ Z.to_N e, 1)
  end.

(** [num/den * 10^s] as a ratio again. *)
Definition scale10 (r : N * N) (s : Z) : N * N :=
  match s with
  | Zneg p => (r.1, r.2 * 10 ^ Npos p)
  | _ => (r.1 * 10 ^ Z.to_N s, r.2)
  end.

(** The float of the decimal [q * 10^(-s)]. *)
Definition of_decimal (q : N) (s : Z) : float :=
  match s with
  | Zneg p => float_of_ratio (q * 10 ^ Npos p) 1
  | _ => float_of_ratio q (10 ^ Z.to_N s)
  end.

(** [floor (log10 (num/den))]. *)
Fixpoint log10_below (fuel : nat) (r : N * N) (j : Z) : Z :=
  match fuel with
  | O => j
  | S fuel' => if r.2 <=? r.1 then j else log10_below fuel' (10 * r.1, r.2) (j - 1)%Z
  end.
Definition floor_log10 (r : N * N) : Z :=
  if r.2 <=? r.1
  then Z.of_nat (String.length (pretty (r.1 `div` r.2))) - 1
  else log10_below 400 r 0.

(** The shortest decimal [q * 10^(-s)], [q] of [n] digits, that reads
    back as [f]; the nearer of the two neighbours of [f] when both do. *)
Definition candidate (f : float) (r : N * N) (d : Z) (n : nat) : option (N * Z) :=
  let s := (Z.of_nat n - 1 - d)%Z in
  let '(num, den) := scale10 r s in
  let lo := num `div` den in
  let hi := if num `mod` den =? 0 then lo else lo + 1 in
  let ok q := PrimFloat.eqb (of_decimal q s) f in
  let lo_nearer := 2 * num <=? (lo + hi) * den in
  match ok lo, ok hi with
  | true, true => Some (if lo_nearer then lo else hi, s)
  | true, false => Some (lo, s)
  | false, true => Some (hi, s)
  | false, false => None
  end.

Fixpoint shortest (f : float) (r : N * N) (d : Z) (n : nat) (fuel : nat) : N * Z :=
  match fuel with
  | O => (0, 0%Z)
  | S fuel' =>
      match candidate f r d n with
      | Some qs => qs
      | None => shortest f r d (S n) fuel'
      end
  end.

Fixpoint strip_zeros (fuel : nat) (q : N) (s : Z) : N * Z :=
  match fuel with
  | O => (q, s)
  | S fuel' =>
      if (q `mod` 10 =? 0) && (0 <? q) then strip_zeros fuel' (q `div` 10) (s - 1)%Z
      else (q, s)
  end.

Fixpoint zeros (n : nat) : string :=
  match n with O => "" | S n' => String "0" (zeros n') end.

Fixpoint drop_str (n : nat) (s : string) : string :=
  match n, s with
  | S n', String _ s' => drop_str n' s'
  | _, _ => s
  end.

(** Python's layout of the digits [ds] with the point at [decpt]. *)
Definition layout (ds : string) (decpt : Z) : string :=
  let n := Z.of_nat (String.length ds) in
  if ((decpt <=? -4) || (16 <? decpt))%Z then
    let x := (decpt - 1)%Z in
    let mant := match ds with
                | String c "" => ds
                | String c rest => String c (String "." rest)
                | "" => ""
                end in
    let xs := pretty (Z.abs_N x) in
    mant +:+ "e" +:+ (if (x <? 0)%Z then "-" else "+") +:+
    (if (String.length xs <? 2)%nat then "0" +:+ xs else xs)
  else if (decpt <=? 0)%Z then "0." +:+ zeros (Z.to_nat (- decpt)) +:+ ds
  else if (n <=? decpt)%Z then ds +:+ zeros (Z.to_nat (decpt - n)) +:+ ".0"
  else slice_to (Z.to_nat decpt) ds +:+ "." +:+ drop_str (Z.to_nat decpt) ds.

(** [repr] of a float, with the given names for the values that have no
    digits. *)
Definition float_repr (inf nan : string) (f : float) : string :=
  match Prim2SF f with
  | S754_nan => nan
  | S754_infinity s => if s then "-" +:+ inf else inf
  | S754_zero s => if s then "-0.0" else "0.0"
  | S754_finite sg m e =>
      let r := exact_ratio m e in
      let '(q, s) := shortest (abs f) r (floor_log10 r) 1 17 in
      let '(q, s) := strip_zeros 400 q s in
      let ds := pretty q in
      (if sg then "-" else "") +:+ layout ds (Z.of_nat (String.length ds) - s)
  end.

(** *** The snapshot as JSON text, in the layout of [indent=2] *)

Definition dq : ascii := "034"%char.
Definition bs : ascii := "092"%char.

Definition hex_char (n : N) : ascii :=
  ascii_of_N (if n <? 10 then 48 + n else 87 + n).

(** One character of a string literal, as [ensure_ascii] writes it. *)
Definition escape_char (c : ascii) : string :=
  let n := N_of_ascii c in
  if decide (c = dq) then String bs (String dq "")
  else if decide (c = bs) then String bs (String bs "")
  else if n =? 8 then String bs "b"
  else if n =? 12 then String bs "f"
  else if n =? 10 then String bs "n"
  else if n =? 13 then String bs "r"
  else if n =? 9 then String bs "t"
  else if (32 <=? n) && (n <=? 126) then String c ""
  else String bs ("u00" +:+ String (hex_char (n `div` 16)) (String (hex_char (n `mod` 16)) "")).

Fixpoint escape (s : string) : string :=
  match s with
  | "" => ""
  | String c s' => escape_char c +:+ escape s'
  end.

Definition quoted (s : string) : string :=
  String dq (escape s +:+ String dq "").

Definition dump_entry (e : Entry) : string :=
  "{" +:+ nl +:+
  "    " +:+ quoted "name" +:+ ": " +:+ quoted (entry_name e) +:+ "," +:+ nl +:+
  "    " +:+ quoted "size" +:+ ": " +:+ quoted (entry_size e) +:+ "," +:+ nl +:+
  "    " +:+ quoted "price" +:+ ": " +:+ float_repr "Infinity" "NaN" (entry_price e) +:+ "," +:+ nl +:+
  "    " +:+ quoted "url" +:+ ": " +:+ quoted (entry_url e) +:+ nl +:+
  "  }".

Definition dump (state : Snapshot) : string :=
  match map_to_list state with
  | [] => "{}"
  | members =>
      "{" +:+ nl +:+ "  " +:+
      join ("," +:+ nl +:+ "  ")
           ((λ kv, quoted kv.1 +:+ ": " +:+ dump_entry kv.2) <$> members) +:+
      nl +:+ "}"
  end.

(** Reading it back. *)
Definition is_ws (c : ascii) : bool :=
  let n := N_of_ascii c in (n =? 32) || (n =? 9) || (n =? 10) || (n =? 13).

Fixpoint skip_ws (s : string) : string :=
  match s with
  | String c s' => if is_ws c then skip_ws s' else s
  | "" => ""
  end.

Definition expect (c : ascii) (s : string) : option string :=
  match skip_ws s with
  | String c' s' => if decide (c = c') then Some s' else None
  | "" => None
  end.

Definition hex_value (c : ascii) : option N :=
  let n := N_of_ascii c in
  if is_digit c then Some (n - 48)
  else if (97 <=? n) && (n <=? 102) then Some (n - 87)
  else if (65 <=? n) && (n <=? 70) then Some (n - 55)
  else None.

Definition unescape (c : ascii) : option ascii :=
  if decide (c = dq) then Some dq
  else if decide (c = bs) then Some bs
  else if decide (c = "/"%char) then Some "/"%char
  else if decide (c = "b"%char) then Some (ascii_of_N 8)
  else if decide (c = "f"%char) then Some (ascii_of_N 12)
  else if decide (c = "n"%char) then Some (ascii_of_N 10)
  else if decide (c = "r"%char) then Some (ascii_of_N 13)
  else if decide (c = "t"%char) then Some (ascii_of_N 9)
  else None.

(** The rest of a string literal after its opening quote. *)
Fixpoint scan_string (s : string) : option (string * string) :=
  match s with
  | "" => None
  | String c s' =>
      if decide (c = dq) then Some ("", s')
      else if decide (c = bs) then
        match s' with
        | String "u" (String h1 (String h2 (String h3 (String h4 s4)))) =>
            a ← hex_value h1; b ← hex_value h2; c3 ← hex_value h3; d ← hex_value h4;
            if (a =? 0) && (b =? 0) then
              '(str, rest) ← scan_string s4;
              Some (String (ascii_of_N (16 * c3 + d)) str, rest)
            else None
        | String e s2 =>
            ch ← unescape e;
            '(str, rest) ← scan_string s2;
            Some (String ch str, rest)
        | "" => None
        end
      else if N_of_ascii c <? 32 then None
      else '(str, rest) ← scan_string s'; Some (String c str, rest)
  end.

Definition parse_string (s : string) : option (string * string) :=
  expect dq s ≫= scan_string.

(** A run of digits and what follows it. *)
Fixpoint span_digits (s : string) : string * string :=
  match s with
  | String c s' =>
      if is_digit c then let '(ds, rest) := span_digits s' in (String c ds, rest)
      else ("", s)
  | "" => ("", "")
  end.

Definition digits_value (ds : string) : N := (read_decimal ds 0 1 false).1.

(** A number: sign, digits, fraction and exponent. *)
Definition parse_number (s : string) : option (float * string) :=
  let s := skip_ws s in
  let '(neg, s) := match s with String "-" s' => (true, s') | _ => (false, s) end in
  let signed (f : float) := if neg then (- f)%float else f in
  if is_prefix "Infinity" s then Some (signed infinity, drop_str 8 s)
  else if is_prefix "NaN" s then (if neg then None else Some (nan, drop_str 3 s))
  else
    let '(ip, s) := span_digits s in
    if negb (truthy ip) then None else
    let '(fp, s) := match s with
                    | String "." s' => span_digits s'
                    | _ => ("", s)
                    end in
    let '(x, s) := match s with
                   | String c s' =>
                       if decide (c = "e"%char ∨ c = "E"%char) then
                         match s' with
                         | String "-" s2 => let '(xs, r) := span_digits s2 in
                                            (- Z.of_N (digits_value xs), r)%Z
                         | String "+" s2 => let '(xs, r) := span_digits s2 in
                                            (Z.of_N (digits_value xs), r)
                         | _ => let '(xs, r) := span_digits s' in
                                (Z.of_N (digits_value xs), r)
                         end
                       else (0%Z, s)
                   | "" => (0%Z, s)
                   end in
    Some (signed (of_decimal (digits_value (ip +:+ fp))
                             (Z.of_nat (String.length fp) - x)), s).

Inductive field := FStr (s : string) | FNum (f : float).

Definition parse_field (s : string) : option (field * string) :=
  match skip_ws s with
  | String c _ =>
      if decide (c = dq) then '(v, rest) ← parse_string s; Some (FStr v, rest)
      else '(v, rest) ← parse_number s; Some (FNum v, rest)
  | "" => None
  end.

(** The members of an object after its opening brace, up to and with
    its closing brace; [value] reads one member's value. *)
Fixpoint parse_members {A} (value : string → option (A * string))
    (fuel : nat) (s : string) : option (list (string * A) * string) :=
  match fuel with
  | O => None
  | S fuel' =>
      '(k, s) ← parse_string s;
      s ← expect ":"%char s;
      '(v, s) ← value s;
      match skip_ws s with
      | String "," s' =>
          '(kvs, rest) ← parse_members value fuel' s'; Some ((k, v) :: kvs, rest)
      | String "}" s' => Some ([(k, v)], s')
      | _ => None
      end
  end.

Definition parse_object {A} (value : string → option (A * string))
    (s : string) : option (list (string * A) * string) :=
  s ← expect "{"%char s;
  match skip_ws s with
  | String "}" s' => Some ([], s')
  | _ => parse_members value (String.length s) s
  end.

Definition last_of {A} (k : string) (kvs : list (string * A)) : option A :=
  snd <$> List.find (λ kv, bool_decide (kv.1 = k)) (reverse kvs).

Definition parse_entry (s : string) : option (Entry * string) :=
  '(kvs, rest) ← parse_object parse_field s;
  match last_of "name" kvs, last_of "size" kvs, last_of "price" kvs, last_of "url" kvs with
  | Some (FStr n), Some (FStr z), Some (FNum p), Some (FStr u) =>
      Some ({| entry_name := n; entry_size := z; entry_price := p; entry_url := u |}, rest)
  | _, _, _, _ => None
  end.

Definition load (content : string) : option Snapshot :=
  '(kvs, rest) ← parse_object parse_entry content;
  if truthy (skip_ws rest) then None
  else Some (foldl (λ m kv, <[kv.1 := kv.2]> m) ∅ kvs).

(** [urljoin] for this base and the shapes of reference met on the
    page: a full URL, a reference with a host ([//host/path]), a path
    from the root, a name next to the base's last segment.  A host with
    one square bracket and not the other is refused. *)
Fixpoint take_host (s : string) : string :=
  match s with
  | String c s' =>
      if bool_decide (c = "/"%char ∨ c = "?"%char ∨ c = "#"%char) then ""
      else String c (take_host s')
  | "" => ""
  end.

Definition host_of (href : string) : option string :=
  if is_prefix "//" href then Some (take_host (drop_str 2 href))
  else if is_prefix "http://" href then Some (take_host (drop_str 7 href))
  else if is_prefix "https://" href then Some (take_host (drop_str 8 href))
  else None.

Definition join_url (base href : string) : option string :=
  match host_of href with
  | Some host =>
      if xorb (str_in "[" host) (str_in "]" host) then None
      else Some (if is_prefix "//" href then "https:" +:+ href else href)
  | None =>
      if is_prefix "/" href then Some ("https://www.frysfood.com" +:+ href)
      else if truthy href then Some ("https://www.frysfood.com/q/" +:+ href)
      else Some base
  end.

Definition library : Library := {|
  urljoin := join_url;
  str_of_float := float_repr "inf" "nan";
  json_dump := dump;
  json_load := load;
|}.

End PyRef.

(** ** A sample page and sample worlds *)

Module Sample.

Definition cam_url : string := "https://www.frysfood.com/p/squishmallows-cam/0001".

Definition cam : card := {|
  card_text := "Squishmallows 8 in Cam the Cat Plush $15.00 each";
  card_name_el := Some "Squishmallows 8 in Cam the Cat Plush";
  card_tag_texts := ["Squishmallows 8 in Cam the Cat Plush"];
  card_price_el := Some "$15.00";
  card_href := Some "/p/squishmallows-cam/0001";
|}.

(** A size that is not tracked. *)
Definition jumbo : card := {|
  card_text := "Squishmallows 12 in Jumbo Plush $39.99";
  card_name_el := None;
  card_tag_texts := ["Squishmallows 12 in Jumbo Plush"];
  card_price_el := None;
  card_href := Some "/p/squishmallows-jumbo/0002";
|}.

(** No amount in the price text. *)
Definition unpriced : card := {|
  card_text := "Squishmallow 5 in Plush Prices may vary $4.5";
  card_name_el := None;
  card_tag_texts := [];
  card_price_el := None;
  card_href := Some "/p/squishmallow-mini/0003";
|}.

(** A second listing of Cam's URL. *)
Definition cam_again : card := {|
  card_text := "Squishmallow 5 in Cam $9.99";
  card_name_el := None;
  card_tag_texts := ["Cam"; "Squishmallow 5 in Cam"];
  card_price_el := None;
  card_href := Some "https://www.frysfood.com/p/squishmallows-cam/0001";
|}.

Definition cards : list card := [cam; jumbo; unpriced; cam_again].

Definition page : soup := {| soup_select := cards; soup_find_all_li := [] |}.

Definition cam_item : Item := {|
  item_key := cam_url;
  item_name := "Squishmallows 8 in Cam the Cat Plush";
  item_size := "8 in";
  item_price := 15;
  item_url := cam_url;
|}.

(** The snapshot of an earlier run, when Cam cost 12.50. *)
Definition old_state : Snapshot :=
  {[ cam_url := {| entry_name := "Squishmallows 8 in Cam the Cat Plush";
                   entry_size := "8 in"; entry_price := 12.5;
                   entry_url := cam_url |} ]}.

Definition cfg_set : config := {|
  EMAIL_USER := Some "me@example.com";
  EMAIL_PASS := Some "app-password";
  ALERT_TO := Some "5550100@sms.example.com";
|}.

Definition cfg_no_pass : config := {|
  EMAIL_USER := Some "me@example.com";
  EMAIL_PASS := None;
  ALERT_TO := Some "5550100@sms.example.com";
|}.

Definition ext_up : external := {|
  http_get := λ _, Some page;
  smtp_session := λ _ _ _ _ _, true;
|}.

Definition ext_smtp_down : external := {|
  http_get := λ _, Some page;
  smtp_session := λ _ _ _ _ _, false;
|}.


(** Before the first run: no state file. *)
Definition first_world : world := {| files := ∅; trace := [] |}.

(** After the earlier run. *)
Definition later_world : world :=
  {| files := {[ STATE_FILE := PyRef.dump old_state ]}; trace := [] |}.

End Sample.

(** ** More sample blocks *)

Module Sample2.
Import Sample.

(** Not of the product family. *)
Definition other_toy : card := {|
  card_text := "Plush Bear 5 in $3.00";
  card_name_el := None;
  card_tag_texts := ["Plush Bear"];
  card_price_el := Some "$3.00";
  card_href := Some "/p/plush-bear/0009";
|}.

(** Two accepted blocks without a link. *)
Definition loose_a : card := {|
  card_text := "Squishmallow 4 in Loose Plush $2.00";
  card_name_el := None;
  card_tag_texts := [];
  card_price_el := None;
  card_href := None;
|}.

Definition loose_b : card := {|
  card_text := "Squishmallows 7 in Loose Plush $6.50";
  card_name_el := None;
  card_tag_texts := [];
  card_price_el := None;
  card_href := None;
|}.

Definition cfg_empty_user : config := {|
  EMAIL_USER := Some "";
  EMAIL_PASS := Some "app-password";
  ALERT_TO := Some "5550100@sms.example.com";
|}.

(** A price with three decimals. *)
Definition three_decimals : card := {|
  card_text := "Squishmallow 5 in Plush $12.345";
  card_name_el := None;
  card_tag_texts := [];
  card_price_el := Some "$12.345";
  card_href := None;
|}.

(** A link on which [urljoin] raises. *)
Definition bad_link : card := {|
  card_text := "Squishmallow 5 in Plush $4.00";
  card_name_el := None;
  card_tag_texts := [];
  card_price_el := None;
  card_href := Some "//[";
|}.

Definition ext_bad_link : external := {|
  http_get := λ _, Some {| soup_select := [cam; bad_link]; soup_find_all_li := [] |};
  smtp_session := λ _ _ _ _ _, true;
|}.

(** The site does not answer. *)
Definition ext_down : external := {|
  http_get := λ _, None;
  smtp_session := λ _ _ _ _ _, true;
|}.

(** A state file that is not JSON. *)
Definition broken_world : world :=
  {| files := {[ STATE_FILE := "last prices: none" ]}; trace := [] |}.

(** Cam's change from 12.50 to 15.00, and the message about it. *)
Definition cam_change : list ChangedItem := (diff old_state [cam_item]).2.

Definition cam_changed : ChangedItem := {|
  changed_name := "Squishmallows 8 in Cam the Cat Plush";
  changed_size := "8 in";
  changed_url := cam_url;
  changed_old_price := 12.5;
  changed_price := 15;
|}.

Definition cam_alert : email := {|
  email_subject := "[Fry's] Squishmallow price changes (1 item(s))";
  email_from := "me@example.com";
  email_to := "5550100@sms.example.com";
  email_body :=
    "Squishmallows 8 in Cam the Cat Plush (8 in)" +:+ nl +:+
    "Old price: 12.5" +:+ nl +:+ "New price: 15.0" +:+ nl +:+
    "Link: https://www.frysfood.com/p/squishmallows-cam/0001" +:+ nl;
|}.

End Sample2.

(** ** Reading aids for the statements *)

(** The fraction part of an amount: a point and two digits. *)
Definition frac (d1 d2 : ascii) : string :=
  String "."%char (String d1 (String d2 "")).

(** A dollar amount with exactly two decimal digits, in the spec's words:
    a dollar sign, one or more digits, a point and two digits that no
    third digit follows. *)
Definition starts_with_digit (s : string) : bool :=
  match s with
  | String c _ => is_digit c
  | EmptyString => false
  end.

Definition has_exact_amount (text : string) : Prop :=
  ∃ pre g post, text = pre +:+ String "$"%char g +:+ post ∧
    amount g ∧ starts_with_digit post = false.

(** Keeping the first item of every key, in the spec's words: an item
    stays, and the later items of its key go. *)
Fixpoint keep_first (l : list Item) : list Item :=
  match l with
  | [] => []
  | x :: r => x :: filter (λ y, item_key y ≠ item_key x) (keep_first r)
  end.

(** The loop on the items that pass the tests, with its set of keys. *)
Fixpoint dedup_from (seen : gset string) (l : list Item) : list Item :=
  match l with
  | [] => []
  | x :: r =>
      if decide (item_key x ∈ seen) then dedup_from seen r
      else x :: dedup_from ({[ item_key x ]} ∪ seen) r
  end.

(** The keyword test in the spec's words: the singular form alone. *)
Definition has_singular (text : string) : bool := str_in "Squishmallow" text.

(** The digits of a string read as one decimal number, after [acc]. *)
Fixpoint decimal_value (acc : N) (ds : string) : N :=
  match ds with
  | EmptyString => acc
  | String c ds' => decimal_value (10 * acc + digit_value c)%N ds'
  end.

(** The test for the items of one key. *)
Definition has_key (k : string) (it : Item) : bool := bool_decide (item_key it = k).

(** The snapshot value of an item (lines 144-149). *)
Definition entry_of (it : Item) : Entry :=
  {| entry_name := item_name it; entry_size := item_size it;
     entry_price := item_price it; entry_url := item_url it |}.

(** The new snapshot of a run: every item filed under its key. *)
Definition snapshot_of (items : list Item) : Snapshot :=
  foldl (λ m it, <[item_key it := entry_of it]> m) ∅ items.

(** The change an item stands for, in the words of the spec: its key is
    in the old snapshot and the price stored there differs from its own. *)
Definition changed_of (old_state : Snapshot) (it : Item) : option ChangedItem :=
  match old_state !! item_key it with
  | Some e =>
      if py_ne (item_price it) (entry_price e)
      then Some {| changed_name := item_name it; changed_size := item_size it;
                   changed_url := item_url it;
                   changed_old_price := entry_price e;
                   changed_price := item_price it |}
      else None
  | None => None
  end.

(** The world after the request of [scrape_items]. *)
Definition fetched (w : world) : world :=
  {| files := files w; trace := trace w ++ [EvHttpGet SEARCH_URL] |}.

(** The input/output a computation added to the trace. *)
Definition new_events (w w' : world) : list event :=
  drop (length (trace w)) (trace w').

(** * Properties *)

(** ** Substring containment *)

Section StrFacts.

Lemma append_nil_l (s : string) : "" +:+ s = s.
Proof. reflexivity. Qed.

Lemma append_cons (c : ascii) (s t : string) : String c s +:+ t = String c (s +:+ t).
Proof. reflexivity. Qed.

Lemma append_assoc (a b c : string) : (a +:+ b) +:+ c = a +:+ b +:+ c.
Proof. induction a as [|x a IH]; [done|]. by rewrite !append_cons, IH. Qed.

Lemma is_prefix_spec p s : is_prefix p s = true ↔ ∃ post, s = p +:+ post.
Proof.
  revert s. induction p as [|a p IH]; intros s; simpl.
  - split; [intros _; by exists s | done].
  - destruct s as [|b s].
    + split; [done | intros [post Hp]; by rewrite append_cons in Hp].
    + destruct (decide (a = b)) as [->|Hne].
      * rewrite IH. split; intros [post Hp]; exists post;
          rewrite append_cons in *; congruence.
      * split; [done | intros [post Hp]; rewrite append_cons in Hp; congruence].
Qed.

Lemma is_prefix_app p post : is_prefix p (p +:+ post) = true.
Proof. apply is_prefix_spec. by exists post. Qed.

Lemma str_in_here needle hay : is_prefix needle hay = true → str_in needle hay = true.
Proof. intros Hp. destruct hay; simpl in *; rewrite Hp; done. Qed.

Lemma str_in_later needle c hay :
  str_in needle hay = true → str_in needle (String c hay) = true.
Proof. intros Hin. cbn [str_in]. rewrite Hin. apply orb_true_r. Qed.

Lemma str_in_spec needle hay : str_in needle hay = true ↔ substring_of needle hay.
Proof.
  split.
  - induction hay as [|c hay IH]; cbn [str_in]; rewrite orb_true_iff.
    + intros [Hp|?]; [|done].
      apply is_prefix_spec in Hp as [post Hp]. by exists "", post.
    + intros [Hp|Hin].
      * apply is_prefix_spec in Hp as [post Hp]. by exists "", post.
      * destruct (IH Hin) as (pre & post & Hh). exists (String c pre), post.
        by rewrite append_cons, Hh.
  - intros (pre & post & ->). induction pre as [|c pre IH].
    + rewrite append_nil_l. apply str_in_here, is_prefix_app.
    + rewrite append_cons. by apply str_in_later.
Qed.

Lemma substring_of_app_l a b hay : substring_of (a +:+ b) hay → substring_of a hay.
Proof.
  intros (pre & post & ->). exists pre, (b +:+ post). by rewrite append_assoc.
Qed.

Lemma str_in_app_l a b hay : str_in (a +:+ b) hay = true → str_in a hay = true.
Proof. rewrite !str_in_spec. apply substring_of_app_l. Qed.

Lemma str_in_false needle hay : str_in needle hay = false ↔ ¬ substring_of needle hay.
Proof. rewrite <- str_in_spec. by destruct (str_in needle hay). Qed.

End StrFacts.

(** ** The keyword filter *)

Section Keyword.

Lemma plural_has_singular text :
  str_in "Squishmallows" text = true → str_in "Squishmallow" text = true.
Proof. apply (str_in_app_l "Squishmallow" "s"). Qed.

(** C10: the test of line 87 keeps a block exactly when the test for the
    singular form alone keeps it: a text that contains the plural
    contains the singular, so the plural test never changes the outcome;
    and a block is kept if and only if "Squishmallow" is a substring of
    its flattened text. *)
Theorem keyword_filter_is_singular (text : string) :
  negb (lacks_keyword text) = has_singular text ∧
  implb (str_in "Squishmallows" text) (str_in "Squishmallow" text) = true ∧
  (lacks_keyword text = false ↔ substring_of "Squishmallow" text).
Proof.
  unfold has_singular.
  assert (Himp : implb (str_in "Squishmallows" text)
                       (str_in "Squishmallow" text) = true).
  { destruct (str_in "Squishmallows" text) eqn:Hpl; [|done].
    by rewrite (plural_has_singular _ Hpl). }
  assert (Heq : negb (lacks_keyword text) = str_in "Squishmallow" text).
  { unfold lacks_keyword.
    destruct (str_in "Squishmallow" text) eqn:Hs; [done|].
    destruct (str_in "Squishmallows" text) eqn:Hpl; [|done].
    by rewrite (plural_has_singular _ Hpl) in Hs. }
  split_and!; [done | done |].
  rewrite <- str_in_spec, <- Heq. by destruct (lacks_keyword text).
Qed.

End Keyword.

(** ** The price pattern *)

Section Pattern.

Lemma all_digits_nil : all_digits "".
Proof. intros c Hc. simpl in Hc. by apply elem_of_nil in Hc. Qed.

Lemma all_digits_cons c s : all_digits (String c s) ↔ is_digit c = true ∧ all_digits s.
Proof.
  unfold all_digits. simpl. split.
  - intros Hall. split; [apply Hall; left | intros x Hx; apply Hall; by right].
  - intros [Hc Hs] x Hx. apply elem_of_cons in Hx as [->|Hx]; auto.
Qed.

Lemma match_frac_spec s g :
  match_frac s = Some g ↔
  ∃ d1 d2 rest, is_digit d1 = true ∧ is_digit d2 = true ∧
    s = frac d1 d2 +:+ rest ∧ g = frac d1 d2.
Proof.
  unfold match_frac, frac. split.
  - destruct s as [|p [|d1 [|d2 rest]]]; try done.
    destruct (decide (p = "."%char)) as [->|]; [|done].
    destruct (is_digit d1) eqn:H1; [|done].
    destruct (is_digit d2) eqn:H2; [|done].
    simpl. intros [= <-]. by exists d1, d2, rest.
  - intros (d1 & d2 & rest & H1 & H2 & -> & ->).
    rewrite !append_cons.
    destruct (decide _); [|done]. by rewrite H1, H2.
Qed.

Lemma match_frac_digit c s : is_digit c = true → match_frac (String c s) = None.
Proof.
  intros Hc. unfold match_frac. destruct s as [|d1 [|d2 rest]]; try done.
  destruct (decide (c = "."%char)) as [->|]; [|done]. done.
Qed.

(** After the first digit: more digits, then the fraction. *)
Lemma match_more_spec s g :
  match_more s = Some g ↔
  ∃ ds d1 d2 rest, all_digits ds ∧ is_digit d1 = true ∧ is_digit d2 = true ∧
    s = ds +:+ frac d1 d2 +:+ rest ∧ g = ds +:+ frac d1 d2.
Proof.
  split.
  - revert g. induction s as [|c s IH]; intros g; cbn [match_more].
    + done.
    + destruct (is_digit c) eqn:Hc.
      * destruct (match_more s) as [g'|] eqn:Hg'.
        -- intros [= <-].
           destruct (IH g' eq_refl) as (ds & d1 & d2 & rest & Hds & H1 & H2 & -> & ->).
           exists (String c ds), d1, d2, rest. rewrite all_digits_cons.
           by rewrite !append_cons.
        -- by rewrite match_frac_digit.
      * intros (d1 & d2 & rest & H1 & H2 & -> & ->)%match_frac_spec.
        exists "", d1, d2, rest. split; [apply all_digits_nil | done].
  - intros (ds & d1 & d2 & rest & Hds & H1 & H2 & -> & ->).
    induction ds as [|c ds IH].
    + rewrite !append_nil_l. unfold frac at 1. rewrite append_cons.
      cbn [match_more]. change (is_digit "."%char) with false. cbv iota.
      apply match_frac_spec. by exists d1, d2, rest.
    + apply all_digits_cons in Hds as [Hc Hds]. rewrite !append_cons.
      cbn [match_more]. rewrite Hc, (IH Hds). done.
Qed.

Lemma match_here_spec s g :
  match_here s = Some g ↔ amount g ∧ ∃ rest, s = String "$"%char g +:+ rest.
Proof.
  unfold match_here, amount. split.
  - destruct s as [|dollar [|c s]]; try done.
    destruct (decide (dollar = "$"%char)) as [->|]; [|done].
    destruct (is_digit c) eqn:Hc; [|done].
    destruct (match_more s) as [g'|] eqn:Hg'; [|done].
    simpl. intros [= <-].
    apply match_more_spec in Hg' as (ds & d1 & d2 & rest & Hds & H1 & H2 & -> & ->).
    split.
    + exists (String c ds), d1, d2. rewrite all_digits_cons. by rewrite append_cons.
    + exists rest. by rewrite !append_cons, append_assoc.
  - intros [(ds & d1 & d2 & Hne & Hds & H1 & H2 & ->) [rest ->]].
    destruct ds as [|c ds]; [done|].
    apply all_digits_cons in Hds as [Hc Hds].
    rewrite !append_cons. destruct (decide _); [|done]. rewrite Hc.
    rewrite append_assoc. fold (frac d1 d2).
    assert (match_more (ds +:+ frac d1 d2 +:+ rest) = Some (ds +:+ frac d1 d2)) as ->.
    { apply match_more_spec. by exists ds, d1, d2, rest. }
    done.
Qed.

(** What [re.search] returns is an amount of the text. *)
Lemma re_search_Some text g :
  re_search text = Some g → amount g ∧ substring_of (String "$"%char g) text.
Proof.
  induction text as [|c text IH]; cbn [re_search].
  - done.
  - destruct (match_here (String c text)) as [g'|] eqn:Hg'.
    + intros [= <-]. apply match_here_spec in Hg' as [Hg [rest Hs]].
      split; [done|]. exists "", rest. by rewrite append_nil_l.
    + intros Hr. destruct (IH Hr) as [Hg (pre & post & ->)].
      split; [done|]. exists (String c pre), post. by rewrite append_cons.
Qed.

(** It returns nothing exactly when the text has no such amount. *)
Lemma re_search_None text : re_search text = None ↔ ¬ has_dollar_amount text.
Proof.
  unfold has_dollar_amount. split.
  - intros Hn (g & Hg & pre & post & ->).
    induction pre as [|c pre IH].
    + rewrite append_nil_l in Hn.
      assert (match_here (String "$"%char g +:+ post) = Some g) as Hm
        by (apply match_here_spec; eauto).
      rewrite append_cons in Hn, Hm. cbn [re_search] in Hn. by rewrite Hm in Hn.
    + rewrite append_cons in Hn. cbn [re_search] in Hn.
      destruct (match_here _); [done | auto].
  - intros Hno. destruct (re_search text) as [g|] eqn:Hg; [|done].
    apply re_search_Some in Hg as [Hg Hsub]. destruct Hno; eauto.
Qed.

Lemma parse_price_None text : parse_price text = None ↔ ¬ has_dollar_amount text.
Proof.
  rewrite <- re_search_None. unfold parse_price.
  by destruct (re_search text).
Qed.

Lemma parse_price_Some text p :
  parse_price text = Some p →
  ∃ g, amount g ∧ substring_of (String "$"%char g) text ∧ p = py_float g.
Proof.
  unfold parse_price. destruct (re_search text) as [g|] eqn:Hg; [|done].
  intros [= <-]. apply re_search_Some in Hg as [? ?]. eauto.
Qed.

End Pattern.

(** ** The extractor *)

Section ListFacts.

Lemma find_Some_first {A} (P : A → bool) (l : list A) (x : A) :
  List.find P l = Some x ↔
  ∃ pre post, l = pre ++ x :: post ∧ P x = true ∧ ∀ y, y ∈ pre → P y = false.
Proof.
  induction l as [|a l IH]; simpl.
  - split; [done | intros (pre & post & Hl & _)]. by destruct pre.
  - destruct (P a) eqn:Ha.
    + split.
      * intros [= ->]. exists [], l. split_and!; [done | done |].
        intros y Hy. by apply elem_of_nil in Hy.
      * intros (pre & post & Hl & Hx & Hpre). destruct pre as [|b pre].
        -- simpl in Hl. congruence.
        -- simpl in Hl. injection Hl as <- _.
           rewrite (Hpre a) in Ha; [done | left].
    + rewrite IH. split.
      * intros (pre & post & -> & Hx & Hpre). exists (a :: pre), post.
        split_and!; [done | done |].
        intros y [->|Hy]%elem_of_cons; auto.
      * intros (pre & post & Hl & Hx & Hpre). destruct pre as [|b pre].
        -- simpl in Hl. injection Hl as -> _. congruence.
        -- simpl in Hl. injection Hl as <- ->. exists pre, post.
           split_and!; [done | done |]. intros y Hy. apply Hpre. by right.
Qed.

Lemma find_None_all {A} (P : A → bool) (l : list A) :
  List.find P l = None ↔ ∀ y, y ∈ l → P y = false.
Proof.
  induction l as [|a l IH]; simpl.
  - split; [|done]. intros _ y Hy. by apply elem_of_nil in Hy.
  - destruct (P a) eqn:Ha.
    + split; [done|]. intros Hall. rewrite Hall in Ha; [done | left].
    + rewrite IH. split.
      * intros Hall y [->|Hy]%elem_of_cons; auto.
      * intros Hall y Hy. apply Hall. by right.
Qed.

Lemma keep_first_elem (l : list Item) (it : Item) :
  it ∈ keep_first l ↔
  ∃ pre post, l = pre ++ it :: post ∧ ∀ x, x ∈ pre → item_key x ≠ item_key it.
Proof.
  induction l as [|a l IH]; simpl.
  - split; [by intros ?%elem_of_nil | intros (pre & post & Hl & _)]. by destruct pre.
  - rewrite elem_of_cons, list_elem_of_filter, IH. split.
    + intros [->|[Hne (pre & post & -> & Hpre)]].
      * exists [], l. split; [done|]. by intros x ?%elem_of_nil.
      * exists (a :: pre), post. split; [done|].
        intros x [->|Hx]%elem_of_cons; [congruence | auto].
    + intros (pre & post & Hl & Hpre). destruct pre as [|b pre]; simpl in Hl.
      * injection Hl as -> _. by left.
      * injection Hl as <- ->. right. split.
        -- intros Heq. apply (Hpre a); [left | done].
        -- exists pre, post. split; [done|]. intros x Hx. apply Hpre. by right.
Qed.

Lemma keep_first_filter (Q : Item → Prop) `{!∀ x, Decision (Q x)} (l : list Item) :
  (∀ x y, item_key x = item_key y → Q x → Q y) →
  keep_first (filter Q l) = filter Q (keep_first l).
Proof.
  intros Hkey. induction l as [|a l IH]; [done|].
  simpl keep_first. rewrite !filter_cons. destruct (decide (Q a)) as [Ha|Ha].
  - simpl keep_first. f_equal. rewrite IH.
    rewrite !list_filter_filter. apply list_filter_iff. tauto.
  - rewrite IH, list_filter_filter. apply list_filter_iff.
    intros x. split; [|tauto]. intros Hx. split; [done|].
    intros Heq. apply Ha. by apply (Hkey x).
Qed.

Lemma dedup_from_keep_first (seen : gset string) (l : list Item) :
  dedup_from seen l = keep_first (filter (λ y, item_key y ∉ seen) l).
Proof.
  revert seen. induction l as [|a l IH]; intros seen; [done|].
  simpl dedup_from. rewrite filter_cons.
  destruct (decide (item_key a ∈ seen)) as [Hin|Hin].
  - rewrite decide_False by tauto. apply IH.
  - rewrite decide_True by done. simpl keep_first. f_equal.
    rewrite IH.
    rewrite <- (keep_first_filter (λ y, item_key y ≠ item_key a)) by congruence.
    f_equal. rewrite list_filter_filter. apply list_filter_iff.
    intros x. rewrite not_elem_of_union, elem_of_singleton. tauto.
Qed.

Lemma keep_first_NoDup (l : list Item) : NoDup (item_key <$> keep_first l).
Proof.
  induction l as [|a l IH]; simpl; [constructor|].
  constructor.
  - intros (y & Hk & Hy)%list_elem_of_fmap.
    apply list_elem_of_filter in Hy as [Hne _]. congruence.
  - eapply sublist_NoDup; [exact IH|].
    apply fmap_sublist, sublist_filter.
Qed.

Lemma filter_all {A} (P : A → Prop) `{!∀ x, Decision (P x)} (l : list A) :
  (∀ x, P x) → filter P l = l.
Proof.
  intros HP. induction l as [|a l IH]; [done|].
  rewrite filter_cons_True by done. by rewrite IH.
Qed.

End ListFacts.

Section ResultFacts.

Lemma result_fmap_Ok_inv {A B} (f : A → B) (r : result A) (b : B) :
  f <$> r = Ok b → ∃ a, r = Ok a ∧ b = f a.
Proof. destruct r as [a|e]; [|done]. intros [= <-]. eauto. Qed.

Lemma result_bind_Ok_inv {A B} (f : A → result B) (r : result A) (b : B) :
  r ≫= f = Ok b → ∃ a, r = Ok a ∧ f a = Ok b.
Proof. destruct r as [a|e]; [|done]. eauto. Qed.

End ResultFacts.

Section ExtractorFacts.
Context {lib : Library}.

(** One iteration, through [extract]. *)
Lemma scrape_card_extract items seen c :
  scrape_card (items, seen) c =
  o ← extract c;
  Ok match o with
     | None => (items, seen)
     | Some it =>
         if decide (item_key it ∈ seen) then (items, seen)
         else (items ++ [it], {[ item_key it ]} ∪ seen)
     end.
Proof.
  unfold scrape_card, extract.
  destruct (lacks_keyword (card_text c)); [done|].
  destruct (is_small_size (card_text c)); [|done].
  destruct (parse_price (card_price_text c)); [|done].
  destruct (card_url c) as [url|e]; [|done]. simpl.
  by destruct (decide (url ∈ seen)).
Qed.

Lemma scrape_loop_extract cards items seen :
  fst <$> scrape_loop (items, seen) cards =
  (λ accepted, items ++ dedup_from seen accepted) <$> extract_all cards.
Proof.
  revert items seen. induction cards as [|c cards IH]; intros items seen;
    cbn [scrape_loop extract_all].
  - simpl. by rewrite app_nil_r.
  - rewrite scrape_card_extract. destruct (extract c) as [[it|]|e]; [| |done].
    + cbn [mbind result_bind option_list].
      destruct (decide (item_key it ∈ seen)) as [Hin|Hin]; rewrite IH;
        destruct (extract_all cards) as [accepted|e]; try done; simpl.
      * by rewrite decide_True.
      * by rewrite decide_False, <- app_assoc.
    + cbn [mbind result_bind option_list]. rewrite IH.
      by destruct (extract_all cards).
Qed.

Lemma scrape_cards_keep_first cards :
  scrape_cards cards = keep_first <$> extract_all cards.
Proof.
  unfold scrape_cards. rewrite scrape_loop_extract.
  destruct (extract_all cards) as [accepted|e]; [|done]. simpl. f_equal.
  rewrite dedup_from_keep_first. f_equal.
  apply filter_all. intros x. apply not_elem_of_empty.
Qed.

Lemma scrape_cards_Ok cards items :
  scrape_cards cards = Ok items ↔
  ∃ accepted, extract_all cards = Ok accepted ∧ items = keep_first accepted.
Proof.
  rewrite scrape_cards_keep_first. split.
  - apply result_fmap_Ok_inv.
  - by intros (accepted & -> & ->).
Qed.

Lemma extract_all_app l1 l2 :
  extract_all (l1 ++ l2) =
  a ← extract_all l1; b ← extract_all l2; Ok (a ++ b).
Proof.
  induction l1 as [|c l1 IH]; cbn [app extract_all].
  - by destruct (extract_all l2).
  - destruct (extract c) as [o|e]; [|done]. cbn [mbind result_bind].
    rewrite IH. destruct (extract_all l1) as [a|e]; [|done].
    cbn [mbind result_bind]. destruct (extract_all l2) as [b|e]; [|done].
    simpl. by rewrite app_assoc.
Qed.

Lemma extract_all_skip l1 c l2 :
  extract c = Ok None → extract_all (l1 ++ c :: l2) = extract_all (l1 ++ l2).
Proof.
  intros Hc. rewrite !extract_all_app. cbn [extract_all]. rewrite Hc.
  destruct (extract_all l1); [|done]. simpl. by destruct (extract_all l2).
Qed.

(** A block that yields no item can be taken out of the page. *)
Lemma scrape_cards_skip l1 c l2 :
  extract c = Ok None → scrape_cards (l1 ++ c :: l2) = scrape_cards (l1 ++ l2).
Proof. intros Hc. by rewrite !scrape_cards_keep_first, extract_all_skip. Qed.

Lemma extract_all_source cards accepted it :
  extract_all cards = Ok accepted → it ∈ accepted →
  ∃ c, c ∈ cards ∧ extract c = Ok (Some it).
Proof.
  revert accepted. induction cards as [|c cards IH]; intros accepted;
    cbn [extract_all].
  - intros [= <-] ?%elem_of_nil. done.
  - destruct (extract c) as [o|e] eqn:Hc; [|done]. cbn [mbind result_bind].
    destruct (extract_all cards) as [rest|e]; [|done]. intros [= <-] Hin.
    apply elem_of_app in Hin as [Hin|Hin].
    + destruct o as [it'|]; [|by apply elem_of_nil in Hin].
      apply list_elem_of_singleton in Hin as ->. exists c. split; [left | done].
    + destruct (IH rest eq_refl Hin) as (c' & Hc' & Hex).
      exists c'. split; [by right | done].
Qed.

Lemma scrape_cards_source cards items it :
  scrape_cards cards = Ok items → it ∈ items →
  ∃ c, c ∈ cards ∧ extract c = Ok (Some it).
Proof.
  intros (accepted & Hall & ->)%scrape_cards_Ok
         (pre & post & Hl & _)%keep_first_elem.
  apply (extract_all_source cards accepted); [done|]. rewrite Hl. set_solver.
Qed.

Lemma extract_all_length cards accepted :
  extract_all cards = Ok accepted → length accepted ≤ length cards.
Proof.
  revert accepted. induction cards as [|c cards IH]; intros accepted;
    cbn [extract_all].
  - by intros [= <-].
  - destruct (extract c) as [o|e]; [|done]. cbn [mbind result_bind].
    destruct (extract_all cards) as [rest|e]; [|done]. intros [= <-].
    specialize (IH rest eq_refl). rewrite length_app. cbn [length].
    destruct o; simpl; lia.
Qed.

Lemma extract_raises c e : extract c = Raise e → e = ValueError.
Proof.
  unfold extract, card_url. repeat case_match; simpl; congruence.
Qed.

Lemma extract_all_raises cards e : extract_all cards = Raise e → e = ValueError.
Proof.
  induction cards as [|c cards IH]; cbn [extract_all]; [done|].
  destruct (extract c) as [o|e'] eqn:Hc; cbn [mbind result_bind].
  - destruct (extract_all cards) as [rest|e']; [done|].
    intros [= <-]. by apply IH.
  - intros [= <-]. by eapply extract_raises.
Qed.

Lemma scrape_cards_raises cards e : scrape_cards cards = Raise e → e = ValueError.
Proof.
  rewrite scrape_cards_keep_first.
  destruct (extract_all cards) as [accepted|e'] eqn:Hall; [done|].
  intros [= <-]. by eapply extract_all_raises.
Qed.

Lemma keep_first_later_dup pre x mid y post :
  item_key x = item_key y →
  keep_first (pre ++ x :: mid ++ y :: post) = keep_first (pre ++ x :: mid ++ post).
Proof.
  intros Hk. induction pre as [|a pre IH]; simpl.
  - f_equal.
    rewrite <- !(keep_first_filter (λ z, item_key z ≠ item_key x)) by congruence.
    f_equal. rewrite !filter_app, filter_cons.
    by rewrite decide_False by (intros Hn; apply Hn; congruence).
  - by rewrite IH.
Qed.

End ExtractorFacts.

(** ** The diff *)

Section DiffFacts.

Lemma diff_item_eq old ns ch it :
  diff_item old (ns, ch) it =
  (<[item_key it := entry_of it]> ns, ch ++ option_list (changed_of old it)).
Proof.
  unfold diff_item, changed_of, entry_of.
  destruct (old !! item_key it) as [e|]; simpl.
  - destruct (py_ne _ _); simpl; [done | by rewrite app_nil_r].
  - by rewrite app_nil_r.
Qed.

Lemma foldl_diff_item old items ns ch :
  foldl (diff_item old) (ns, ch) items =
  (foldl (λ (m : Snapshot) it, <[item_key it := entry_of it]> m) ns items,
   ch ++ omap (changed_of old) items).
Proof.
  revert ns ch. induction items as [|it items IH]; intros ns ch; cbn [foldl].
  - simpl. by rewrite app_nil_r.
  - rewrite diff_item_eq, IH. f_equal. rewrite <- app_assoc. f_equal.
    simpl. by destruct (changed_of old it).
Qed.

Lemma diff_eq old items :
  diff old items = (snapshot_of items, omap (changed_of old) items).
Proof. unfold diff. by rewrite foldl_diff_item. Qed.

Lemma changed_of_Some old it c :
  changed_of old it = Some c ↔
  ∃ e, old !! item_key it = Some e ∧
       py_ne (item_price it) (entry_price e) = true ∧
       c = {| changed_name := item_name it; changed_size := item_size it;
              changed_url := item_url it;
              changed_old_price := entry_price e;
              changed_price := item_price it |}.
Proof.
  unfold changed_of. destruct (old !! item_key it) as [e|].
  - destruct (py_ne _ _) eqn:Hne.
    + split; [intros [= <-]; eauto | intros (e' & [= <-] & _ & ->); done].
    + split; [done | intros (e' & [= <-] & ? & _); congruence].
  - split; [done | by intros (e & ? & _)].
Qed.

Lemma snapshot_of_lookup items (m : Snapshot) k e :
  foldl (λ (m : Snapshot) it, <[item_key it := entry_of it]> m) m items !! k = Some e →
  m !! k = Some e ∨ ∃ it, it ∈ items ∧ item_key it = k ∧ e = entry_of it.
Proof.
  revert m. induction items as [|it items IH]; intros m; cbn [foldl]; [auto|].
  intros [Hm|(it' & Hin & Hk & He)]%IH.
  - destruct (decide (item_key it = k)) as [Hk|Hk].
    + rewrite Hk, lookup_insert_eq in Hm. injection Hm as <-.
      right. exists it. split; [left | done].
    + rewrite lookup_insert_ne in Hm by done. by left.
  - right. exists it'. split; [by right | done].
Qed.

End DiffFacts.

(** ** The run *)

Section RunFacts.
Context {lib : Library} (cfg : config) (ext : external).

Lemma load_state_world w r w' : load_state w = (r, w') → w' = w.
Proof.
  unfold load_state. destruct (files w !! STATE_FILE) as [content|].
  - destruct (json_load content); by intros [= _ <-].
  - by intros [= _ <-].
Qed.

(** The notifier: it returns at the guard, or it opens one session. *)
Lemma send_alert_cases changed w :
  send_alert cfg ext changed w = (Ok tt, w) ∨
  ∃ (msg : email) (ok : bool),
    changed ≠ [] ∧
    send_alert cfg ext changed w =
      (if ok then Ok tt else Raise SMTPException,
       {| files := files w; trace := trace w ++ [EvSmtp msg ok] |}).
Proof.
  unfold send_alert.
  destruct (bool_decide (changed = [])) eqn:Hnil; [by left|].
  apply bool_decide_eq_false in Hnil. simpl.
  destruct (negb _); [by left|].
  right. unfold smtp_send, mbind, M_bind, emit. simpl.
  match goal with |- context [EvSmtp ?m ?o] => exists m, o end.
  split; [done|]. by destruct (smtp_session ext _ _ _ _ _).
Qed.

(** The run, step by step. *)
Lemma main_eq w :
  main cfg ext w =
  match load_state w with
  | (Raise e, _) => (Raise e, w)
  | (Ok old, _) =>
      match http_get ext SEARCH_URL with
      | None => (Raise RequestException, fetched w)
      | Some page =>
          match scrape_cards (product_cards page) with
          | Raise e => (Raise e, fetched w)
          | Ok items =>
              if alert_due old (omap (changed_of old) items) then
                match send_alert cfg ext (omap (changed_of old) items) (fetched w) with
                | (Ok _, w2) => save_state (snapshot_of items) w2
                | (Raise e, w2) => (Raise e, w2)
                end
              else save_state (snapshot_of items) (fetched w)
          end
      end
  end.
Proof.
  unfold main. unfold mbind at 1, M_bind at 1.
  destruct (load_state w) as [[old|e] w1] eqn:Hload;
    apply load_state_world in Hload as ->; [|done].
  unfold mbind at 1, M_bind at 1. unfold scrape_items.
  unfold mbind at 1, M_bind at 1. unfold emit. fold (fetched w).
  destruct (http_get ext SEARCH_URL) as [page|]; [|done].
  destruct (scrape_cards (product_cards page)) as [items|e]; [|done].
  unfold mret, M_ret. rewrite diff_eq. cbv zeta.
  unfold mbind, M_bind.
  destruct (alert_due old _); [|done].
  by destruct (send_alert cfg ext _ (fetched w)) as [[[]|e] w2].
Qed.

End RunFacts.

(** Membership in a list that is written out: one case per element. *)
Ltac in_list H :=
  repeat match type of H with
         | _ ∈ [] => by apply elem_of_nil in H
         | _ ∈ _ :: _ => apply elem_of_cons in H as [H|H]
         end.

Section RunOutcome.
Context {lib : Library} (cfg : config) (ext : external).

Lemma new_events_app w w' evs :
  trace w' = trace w ++ evs → new_events w w' = evs.
Proof. unfold new_events. intros ->. by rewrite drop_app_length. Qed.

Lemma alert_due_true old changed :
  alert_due old changed = true ↔ old ≠ ∅ ∧ changed ≠ [].
Proof.
  unfold alert_due. rewrite andb_true_iff, !negb_true_iff, !bool_decide_eq_false.
  done.
Qed.

(** The six ways a run can go, with what it did. *)
Lemma main_outcome w :
  let r := (main cfg ext w).1 in
  let w' := (main cfg ext w).2 in
  (∃ e, load_state w = (Raise e, w) ∧ r = Raise e ∧ w' = w) ∨
  ∃ old, load_state w = (Ok old, w) ∧
    ((http_get ext SEARCH_URL = None ∧ r = Raise RequestException ∧ w' = fetched w) ∨
     ∃ page, http_get ext SEARCH_URL = Some page ∧
       ((scrape_cards (product_cards page) = Raise ValueError ∧
         r = Raise ValueError ∧ w' = fetched w) ∨
        ∃ items, scrape_cards (product_cards page) = Ok items ∧
          let content := json_dump (snapshot_of items) in
          (r = Ok tt ∧
           files w' = <[STATE_FILE := content]> (files w) ∧
           trace w' = trace w ++ [EvHttpGet SEARCH_URL; EvWrite STATE_FILE content]) ∨
          (∃ msg, alert_due old (omap (changed_of old) items) = true ∧
           r = Ok tt ∧
           files w' = <[STATE_FILE := content]> (files w) ∧
           trace w' = trace w ++ [EvHttpGet SEARCH_URL; EvSmtp msg true;
                                  EvWrite STATE_FILE content]) ∨
          (∃ msg, alert_due old (omap (changed_of old) items) = true ∧
           r = Raise SMTPException ∧
           files w' = files w ∧
           trace w' = trace w ++ [EvHttpGet SEARCH_URL; EvSmtp msg false]))).
Proof.
  cbv zeta. rewrite main_eq.
  destruct (load_state w) as [[old|e] w1] eqn:Hload;
    pose proof (load_state_world _ _ _ Hload) as ->; [|left; eauto].
  right. exists old. split; [done|].
  destruct (http_get ext SEARCH_URL) as [page|]; [|left; eauto].
  right. exists page. split; [done|].
  destruct (scrape_cards (product_cards page)) as [items|e] eqn:Hscrape.
  2:{ left. by rewrite (scrape_cards_raises _ _ Hscrape). }
  right. exists items. split; [done|]. cbv zeta.
  destruct (alert_due old _) eqn:Hdue.
  - destruct (send_alert_cases cfg ext (omap (changed_of old) items) (fetched w))
      as [->|(msg & [] & _ & ->)].
    + left. simpl. by rewrite <- app_assoc.
    + right; left. exists msg. simpl. by rewrite <- !app_assoc.
    + right; right. exists msg. simpl. by rewrite <- app_assoc.
  - left. simpl. by rewrite <- app_assoc.
Qed.

End RunOutcome.

(** ** The properties of the specification *)

(** C1: one iteration of the diff appends a ChangedItem exactly when the
    item's key is in the old snapshot and [!=] tells the stored price from
    the item's price, and that ChangedItem carries the stored price as
    old price and the item's price as price; for a key that is not in the
    old snapshot it appends nothing.  So the changed list of the diff
    holds, in the order of the current items, one ChangedItem for each
    such item and nothing else. *)
Theorem diff_records_price_changes (old_state : Snapshot) (current_items : list Item) :
  (∀ new_state changed it,
     (diff_item old_state (new_state, changed) it).2 =
     match old_state !! item_key it with
     | Some e =>
         if py_ne (item_price it) (entry_price e)
         then changed ++ [ {| changed_name := item_name it;
                              changed_size := item_size it;
                              changed_url := item_url it;
                              changed_old_price := entry_price e;
                              changed_price := item_price it |} ]
         else changed
     | None => changed
     end) ∧
  (diff old_state current_items).2 = omap (changed_of old_state) current_items ∧
  ∀ c : ChangedItem,
    c ∈ (diff old_state current_items).2 ↔
    ∃ it e, it ∈ current_items ∧
      old_state !! item_key it = Some e ∧
      py_ne (item_price it) (entry_price e) = true ∧
      c = {| changed_name := item_name it; changed_size := item_size it;
             changed_url := item_url it;
             changed_old_price := entry_price e;
             changed_price := item_price it |}.
Proof.
  split.
  { intros new_state changed it. unfold diff_item.
    destruct (old_state !! item_key it) as [e|]; [|done].
    by destruct (py_ne _ _). }
  rewrite diff_eq. split; [done|]. intros c. simpl.
  rewrite list_elem_of_omap. split.
  - intros (it & Hin & (e & ? & ? & ?)%changed_of_Some). eauto 6.
  - intros (it & e & Hin & ? & ? & ?). exists it. split; [done|].
    apply changed_of_Some. eauto.
Qed.

(** C2: in a run that starts from the empty snapshot no SMTP session is
    opened, whatever the page holds, and when the page is fetched and the
    loop of the extractor returns its items, the run ends normally with
    the state file holding the new snapshot.  In any run, an SMTP session
    is opened only if the old snapshot is non-empty and the changed list
    is non-empty. *)
Theorem first_run_sends_no_alert {lib : Library} (cfg : config) (ext : external)
    (w : world) :
  (load_state w = (Ok ∅, w) →
     (∀ msg ok, EvSmtp msg ok ∉ new_events w (main cfg ext w).2) ∧
     (∀ page items,
        http_get ext SEARCH_URL = Some page →
        scrape_cards (product_cards page) = Ok items →
        (main cfg ext w).1 = Ok tt ∧
        files (main cfg ext w).2 =
          <[STATE_FILE := json_dump (diff ∅ items).1]> (files w) ∧
        new_events w (main cfg ext w).2 =
          [EvHttpGet SEARCH_URL; EvWrite STATE_FILE (json_dump (diff ∅ items).1)])) ∧
  (∀ msg ok, EvSmtp msg ok ∈ new_events w (main cfg ext w).2 →
     ∃ old page items,
       load_state w = (Ok old, w) ∧ http_get ext SEARCH_URL = Some page ∧
       scrape_cards (product_cards page) = Ok items ∧
       old ≠ ∅ ∧ (diff old items).2 ≠ []).
Proof.
  pose proof (main_outcome cfg ext w) as Hrun. cbv zeta in Hrun.
  split.
  - intros Hempty.
    destruct Hrun as [(e & Hload & _)|(old & Hload & Hrun)]; [congruence|].
    assert (old = ∅) as -> by congruence.
    destruct Hrun as [(Hget & _ & Hw)|(page & Hget & Hrun)].
    { split; [|congruence]. intros msg ok Hin. rewrite Hw in Hin.
      rewrite (new_events_app w (fetched w) [EvHttpGet SEARCH_URL]) in Hin by done.
      in_list Hin; done. }
    destruct Hrun as [(Hs & _ & Hw)|(items & Hs & Hrun)].
    { split; [|congruence]. intros msg ok Hin. rewrite Hw in Hin.
      rewrite (new_events_app w (fetched w) [EvHttpGet SEARCH_URL]) in Hin by done.
      in_list Hin; done. }
    destruct Hrun as [(Hr & Hf & Ht)|[(msg & Hdue & _)|(msg & Hdue & _)]];
      [|apply alert_due_true in Hdue as [[] _]; done..].
    split.
    + intros msg ok Hin. rewrite (new_events_app _ _ _ Ht) in Hin.
      in_list Hin; done.
    + intros page' items' Hget' Hs'.
      assert (page' = page) as -> by congruence.
      assert (items' = items) as -> by congruence.
      rewrite diff_eq. simpl. by rewrite (new_events_app _ _ _ Ht).
  - intros msg ok Hin.
    destruct Hrun as [(e & _ & _ & Hw)|(old & Hload & Hrun)].
    { rewrite Hw, (new_events_app w w []) in Hin by (by rewrite app_nil_r).
      in_list Hin. }
    destruct Hrun as [(Hget & _ & Hw)|(page & Hget & Hrun)].
    { rewrite Hw, (new_events_app w (fetched w) [EvHttpGet SEARCH_URL]) in Hin by done.
      in_list Hin; done. }
    destruct Hrun as [(Hs & _ & Hw)|(items & Hs & Hrun)].
    { rewrite Hw, (new_events_app w (fetched w) [EvHttpGet SEARCH_URL]) in Hin by done.
      in_list Hin; done. }
    exists old, page, items. rewrite diff_eq. simpl.
    destruct Hrun as [(Hr & Hf & Ht)|[(m & Hdue & _)|(m & Hdue & _)]];
      [|apply alert_due_true in Hdue as [? ?]; done..].
    rewrite (new_events_app _ _ _ Ht) in Hin. in_list Hin; done.
Qed.

(** C3: in every run the SMTP session comes before the write of the
    state file; and when the run ends with the notifier's exception, the
    files are what they were, no write took place, and the failed session
    is the last thing the run did. *)
Theorem alert_failure_skips_save {lib : Library} (cfg : config) (ext : external)
    (w : world) :
  let evs := new_events w (main cfg ext w).2 in
  (∀ msg ok path content,
     EvSmtp msg ok ∈ evs → EvWrite path content ∈ evs →
     ∃ before, evs = before ++ [EvSmtp msg ok; EvWrite path content]) ∧
  ((main cfg ext w).1 = Raise SMTPException →
     files (main cfg ext w).2 = files w ∧
     (∀ path content, EvWrite path content ∉ evs) ∧
     ∃ msg, evs = [EvHttpGet SEARCH_URL; EvSmtp msg false]).
Proof.
  pose proof (main_outcome cfg ext w) as Hrun. cbv zeta in *.
  destruct Hrun as [(e & Hload & Hr & Hw)|(old & Hload & Hrun)].
  { rewrite Hr, Hw, (new_events_app w w []) by (by rewrite app_nil_r).
    split; [intros ???? Hs; in_list Hs|].
    intros [= ->]. unfold load_state in Hload. repeat case_match; congruence. }
  destruct Hrun as [(Hget & Hr & Hw)|(page & Hget & Hrun)].
  { rewrite Hr, Hw, (new_events_app w (fetched w) [EvHttpGet SEARCH_URL]) by done.
    split; [|done]. intros ???? Hs; in_list Hs; done. }
  destruct Hrun as [(Hs & Hr & Hw)|(items & Hs & Hrun)].
  { rewrite Hr, Hw, (new_events_app w (fetched w) [EvHttpGet SEARCH_URL]) by done.
    split; [|done]. intros ???? Hin; in_list Hin; done. }
  destruct Hrun as [(Hr & Hf & Ht)|[(m & Hdue & Hr & Hf & Ht)|(m & Hdue & Hr & Hf & Ht)]];
    rewrite Hr, (new_events_app _ _ _ Ht).
  - split; [|done]. intros ???? Hin; in_list Hin; done.
  - split; [|done]. intros msg ok path content Hin Hwr.
    in_list Hin; try done. in_list Hwr; try done.
    injection Hin as -> ->. injection Hwr as -> ->.
    by exists [EvHttpGet SEARCH_URL].
  - split.
    + intros msg ok path content _ Hwr. in_list Hwr; done.
    + intros _. split_and!; [done | | by exists m].
      intros path content Hwr. in_list Hwr; done.
Qed.

(** C4: with an empty changed list, or with one of EMAIL_USER,
    EMAIL_PASS and ALERT_TO unset, [send_alert] returns normally and
    leaves the world as it was: no session, no message, no exception. *)
Theorem send_alert_guard {lib : Library} (cfg : config) (ext : external)
    (changed_items : list ChangedItem) (w : world) :
  changed_items = [] ∨ EMAIL_USER cfg = None ∨ EMAIL_PASS cfg = None ∨
    ALERT_TO cfg = None →
  send_alert cfg ext changed_items w = (Ok tt, w).
Proof.
  unfold send_alert. intros [->|[Hu|[Hp|Ht]]].
  - done.
  - rewrite Hu. simpl. by rewrite orb_true_r.
  - rewrite Hp. simpl. by rewrite andb_false_r, orb_true_r.
  - rewrite Ht. simpl. by rewrite andb_false_r, orb_true_r.
Qed.

Section ExtractFacts.
Context {lib : Library}.

Lemma card_price_text_default c :
  card_price_text c = default (card_text c) (card_price_el c).
Proof. unfold card_price_text. by destruct (card_price_el c). Qed.

Lemma extract_Some c it :
  extract c = Ok (Some it) →
  lacks_keyword (card_text c) = false ∧
  is_small_size (card_text c) = Some (item_size it) ∧
  parse_price (card_price_text c) = Some (item_price it) ∧
  card_url c = Ok (item_key it) ∧ item_url it = item_key it ∧
  item_name it = card_name c.
Proof.
  unfold extract. destruct (lacks_keyword (card_text c)); [done|].
  destruct (is_small_size (card_text c)); [|done].
  destruct (parse_price (card_price_text c)); [|done].
  destruct (card_url c) as [url|e]; [|done].
  by intros [= <-].
Qed.

(** A block that passes every test yields its item. *)
Lemma extract_accepts c size price url :
  lacks_keyword (card_text c) = false →
  is_small_size (card_text c) = Some size →
  parse_price (card_price_text c) = Some price →
  card_url c = Ok url →
  extract c = Ok (Some {| item_key := url; item_name := card_name c;
                          item_size := size; item_price := price;
                          item_url := url |}).
Proof. intros Hk Hs Hp Hu. unfold extract. by rewrite Hk, Hs, Hp, Hu. Qed.

Lemma scrape_card_no_size st c :
  is_small_size (card_text c) = None → scrape_card st c = Ok st.
Proof.
  intros Hs. unfold scrape_card. destruct st as [items seen]. rewrite Hs.
  by destruct (lacks_keyword _).
Qed.

Lemma scrape_card_no_price st c :
  parse_price (card_price_text c) = None → scrape_card st c = Ok st.
Proof.
  intros Hp. unfold scrape_card. destruct st as [items seen]. rewrite Hp.
  destruct (lacks_keyword _); [done|]. by destruct (is_small_size _).
Qed.

Lemma extract_no_size c : is_small_size (card_text c) = None → extract c = Ok None.
Proof. intros Hs. unfold extract. rewrite Hs. by destruct (lacks_keyword _). Qed.

Lemma extract_no_price c :
  parse_price (card_price_text c) = None → extract c = Ok None.
Proof.
  intros Hp. unfold extract. rewrite Hp.
  destruct (lacks_keyword _); [done|]. by destruct (is_small_size _).
Qed.

(** The size test, in terms of containment. *)
Lemma is_small_size_Some text label :
  is_small_size text = Some label ↔
  ∃ before after, SMALL_SIZES = before ++ label :: after ∧
    substring_of label text ∧
    ∀ l, l ∈ before → ¬ substring_of l text.
Proof.
  unfold is_small_size. rewrite find_Some_first. split.
  - intros (before & after & Hl & Hin & Hbefore). exists before, after.
    split_and!; [done | by apply str_in_spec |].
    intros l Hl'. by apply str_in_false, Hbefore.
  - intros (before & after & Hl & Hin & Hbefore). exists before, after.
    split_and!; [done | by apply str_in_spec |].
    intros l Hl'. by apply str_in_false, Hbefore.
Qed.

Lemma is_small_size_None text :
  is_small_size text = None ↔ ∀ l, l ∈ SMALL_SIZES → ¬ substring_of l text.
Proof.
  unfold is_small_size. rewrite find_None_all. split.
  - intros Hall l Hl. by apply str_in_false, Hall.
  - intros Hall l Hl. by apply str_in_false, Hall.
Qed.

(** The spec's reading is the narrower one. *)
Lemma exact_amount_is_amount text : has_exact_amount text → has_dollar_amount text.
Proof. intros (pre & g & post & -> & Hg & _). exists g. split; [done|]. by exists pre, post. Qed.

(** Nothing but a digit-free tail can follow the dollar sign of
    "$12.345" as an amount: the pattern's match there is "12.34", and a
    5 follows it. *)
Lemma three_decimals_not_exact : ¬ has_exact_amount "$12.345".
Proof.
  intros (pre & g & post & Htext & Hg & Hpost).
  destruct pre as [|c pre].
  - rewrite append_nil_l in Htext.
    assert (match_here "$12.345" = Some g) as Hm.
    { apply match_here_spec. split; [done|]. by exists post. }
    vm_compute in Hm. injection Hm as <-.
    rewrite !append_cons, append_nil_l in Htext. injection Htext as Hp.
    by rewrite <- Hp in Hpost.
  - rewrite append_cons in Htext. injection Htext as <- Hrest.
    assert (str_in "$" "12.345" = true) as Hin; [|done].
    apply str_in_spec. exists pre, (g +:+ post). exact Hrest.
Qed.

End ExtractFacts.

(** C5, as the specification states it, fails: the price text "$12.345"
    holds no dollar amount with exactly two decimal digits, and its block
    is kept, at the price 12.34, and gets its entry in the new
    snapshot. *)
Lemma three_decimals_block_is_kept :
  ¬ has_exact_amount
      (default (card_text Sample2.three_decimals)
               (card_price_el Sample2.three_decimals)) ∧
  scrape_cards (lib := PyRef.library) [Sample2.three_decimals] =
    Ok [ {| item_key := SEARCH_URL;
            item_name := "Squishmallow 5 in Plush $12.345";
            item_size := "5 in"; item_price := py_float "12.34";
            item_url := SEARCH_URL |} ] ∧
  (diff ∅ [ {| item_key := SEARCH_URL;
               item_name := "Squishmallow 5 in Plush $12.345";
               item_size := "5 in"; item_price := py_float "12.34";
               item_url := SEARCH_URL |} ]).1 !! SEARCH_URL =
    Some {| entry_name := "Squishmallow 5 in Plush $12.345";
            entry_size := "5 in"; entry_price := py_float "12.34";
            entry_url := SEARCH_URL |}.
Proof.
  split; [exact three_decimals_not_exact|].
  split; vm_compute; reflexivity.
Qed.

(** C5 (amended): a block whose price text (the text of its price
    sub-element when it has one, its whole text otherwise) contains no
    dollar sign followed by one or more digits, a point and two digits,
    whatever comes after them, leaves the loop's state as it is and can
    be taken out of the page without changing what the extractor returns.
    Hence every entry of the new snapshot belongs to a block of the page
    and its price is the number read from such an amount in that block's
    price text. *)
Theorem unpriced_block_is_excluded {lib : Library} (cards : list card) :
  (∀ l1 c l2,
     cards = l1 ++ c :: l2 →
     ¬ has_dollar_amount (default (card_text c) (card_price_el c)) →
     parse_price (default (card_text c) (card_price_el c)) = None ∧
     (∀ st, scrape_card st c = Ok st) ∧
     scrape_cards cards = scrape_cards (l1 ++ l2)) ∧
  (∀ items old_state key e,
     scrape_cards cards = Ok items →
     (diff old_state items).1 !! key = Some e →
     ∃ c g, c ∈ cards ∧ card_url c = Ok key ∧
       amount g ∧
       substring_of (String "$"%char g) (default (card_text c) (card_price_el c)) ∧
       parse_price (default (card_text c) (card_price_el c)) = Some (entry_price e) ∧
       entry_price e = py_float g).
Proof.
  split.
  - intros l1 c l2 -> Hno%parse_price_None.
    split; [done|]. rewrite <- card_price_text_default in Hno. split.
    + intros st. by apply scrape_card_no_price.
    + by apply scrape_cards_skip, extract_no_price.
  - intros items old key e Hitems. rewrite diff_eq. simpl. unfold snapshot_of.
    intros [Hempty|(it & Hin & <- & ->)]%snapshot_of_lookup;
      [by rewrite lookup_empty in Hempty|].
    destruct (scrape_cards_source _ _ _ Hitems Hin) as (c & Hc & Hex).
    apply extract_Some in Hex as (_ & _ & Hp & Hk & _).
    rewrite card_price_text_default in Hp.
    destruct (parse_price_Some _ _ Hp) as (g & Hg & Hsub & Hfl).
    exists c, g. done.
Qed.

(** C6: [is_small_size] returns a label exactly when that label is the
    first of SMALL_SIZES, in the order of that list, that is a substring
    of the text, and nothing exactly when no label is; an iteration of
    the loop on a block that passes the other tests appends an item whose
    size is this first label of the block's flattened text, and so the
    size of every item of the output is the first label contained in its
    block's text; a block whose text contains none of the labels leaves
    the loop's state as it is and can be taken out of the page without
    changing what the extractor returns. *)
Theorem size_is_first_matching_label {lib : Library} (cards : list card) :
  (∀ text label,
     is_small_size text = Some label ↔
     ∃ before after, SMALL_SIZES = before ++ label :: after ∧
       substring_of label text ∧
       ∀ l, l ∈ before → ¬ substring_of l text) ∧
  (∀ text,
     is_small_size text = None ↔
     ∀ l, l ∈ SMALL_SIZES → ¬ substring_of l text) ∧
  (∀ items seen c before label after price url,
     lacks_keyword (card_text c) = false →
     SMALL_SIZES = before ++ label :: after →
     substring_of label (card_text c) →
     (∀ l, l ∈ before → ¬ substring_of l (card_text c)) →
     parse_price (card_price_text c) = Some price →
     card_url c = Ok url → url ∉ seen →
     scrape_card (items, seen) c =
       Ok (items ++ [ {| item_key := url; item_name := card_name c;
                         item_size := label; item_price := price;
                         item_url := url |} ],
           {[ url ]} ∪ seen)) ∧
  (∀ items it,
     scrape_cards cards = Ok items → it ∈ items →
     ∃ c before after, c ∈ cards ∧ extract c = Ok (Some it) ∧
       SMALL_SIZES = before ++ item_size it :: after ∧
       substring_of (item_size it) (card_text c) ∧
       ∀ l, l ∈ before → ¬ substring_of l (card_text c)) ∧
  (∀ l1 c l2,
     cards = l1 ++ c :: l2 →
     (∀ l, l ∈ SMALL_SIZES → ¬ substring_of l (card_text c)) →
     is_small_size (card_text c) = None ∧
     (∀ st, scrape_card st c = Ok st) ∧
     scrape_cards cards = scrape_cards (l1 ++ l2)).
Proof.
  split_and!.
  - apply is_small_size_Some.
  - apply is_small_size_None.
  - intros items seen c before label after price url Hk Hl Hin Hbefore Hp Hu Hseen.
    assert (is_small_size (card_text c) = Some label) as Hs
      by (apply is_small_size_Some; eauto).
    rewrite scrape_card_extract, (extract_accepts c label price url) by done.
    cbn [mbind result_bind item_key]. by rewrite decide_False.
  - intros items it Hitems Hin.
    destruct (scrape_cards_source _ _ _ Hitems Hin) as (c & Hc & Hex).
    pose proof (extract_Some _ _ Hex) as (_ & Hs & _).
    apply is_small_size_Some in Hs as (before & after & Hl & Hsub & Hbefore).
    exists c, before, after. done.
  - intros l1 c l2 -> Hnone%is_small_size_None.
    split_and!; [done | |].
    + intros st. by apply scrape_card_no_size.
    + by apply scrape_cards_skip, extract_no_size.
Qed.

(** C7: the keys of the output are pairwise distinct; the output is the
    accepted blocks' items with only the first item of every key kept: an
    item is in the output exactly when no accepted block before its own
    has its key; and a later accepted block that resolves to the URL of
    an earlier one can be taken out of the page without changing what the
    extractor returns. *)
Theorem first_block_of_a_key_wins {lib : Library} (cards : list card) :
  (∀ items, scrape_cards cards = Ok items → NoDup (item_key <$> items)) ∧
  scrape_cards cards = keep_first <$> extract_all cards ∧
  (∀ items, scrape_cards cards = Ok items →
     ∃ accepted, extract_all cards = Ok accepted ∧
       ∀ it, it ∈ items ↔
         ∃ pre post, accepted = pre ++ it :: post ∧
           ∀ x, x ∈ pre → item_key x ≠ item_key it) ∧
  (∀ l1 c1 l2 c2 l3,
     cards = l1 ++ c1 :: l2 ++ c2 :: l3 →
     (∃ it, extract c1 = Ok (Some it)) → (∃ it, extract c2 = Ok (Some it)) →
     card_url c1 = card_url c2 →
     scrape_cards cards = scrape_cards (l1 ++ c1 :: l2 ++ l3)).
Proof.
  split_and!.
  - intros items (accepted & _ & ->)%scrape_cards_Ok. apply keep_first_NoDup.
  - apply scrape_cards_keep_first.
  - intros items (accepted & Hall & ->)%scrape_cards_Ok.
    exists accepted. split; [done|]. intros it. apply keep_first_elem.
  - intros l1 c1 l2 c2 l3 -> [it1 H1] [it2 H2] Hurl.
    assert (item_key it1 = item_key it2) as Hkey.
    { apply extract_Some in H1 as (_ & _ & _ & Hu1 & _).
      apply extract_Some in H2 as (_ & _ & _ & Hu2 & _). congruence. }
    rewrite !scrape_cards_keep_first.
    rewrite !extract_all_app. cbn [extract_all]. rewrite !extract_all_app.
    cbn [extract_all]. rewrite H1, H2.
    destruct (extract_all l1) as [a1|e]; [|done].
    destruct (extract_all l2) as [a2|e]; [|done].
    destruct (extract_all l3) as [a3|e]; [|done].
    simpl. f_equal. by apply keep_first_later_dup.
Qed.


(** ** The properties at the sample page *)

Section Witnesses.
Import Sample.

Lemma first_run_sends_no_alert_witness :
  load_state (lib := PyRef.library) first_world = (Ok ∅, first_world) ∧
  scrape_cards (lib := PyRef.library) (product_cards page) = Ok [cam_item] ∧
  (main (lib := PyRef.library) cfg_set ext_up first_world).1 = Ok tt ∧
  files (main (lib := PyRef.library) cfg_set ext_up first_world).2 =
    <[STATE_FILE := PyRef.dump (diff ∅ [cam_item]).1]> ∅.
Proof.
  assert (scrape_cards (lib := PyRef.library) (product_cards page) = Ok [cam_item])
    as Hitems by (vm_compute; reflexivity).
  split; [reflexivity|]. split; [exact Hitems|].
  destruct (proj2 (proj1 (first_run_sends_no_alert (lib := PyRef.library)
                            cfg_set ext_up first_world) eq_refl)
              page [cam_item] eq_refl Hitems) as (Hr & Hf & _).
  exact (conj Hr Hf).
Defined.

Lemma alert_failure_skips_save_witness :
  (main (lib := PyRef.library) cfg_set ext_smtp_down later_world).1 =
    Raise SMTPException ∧
  files (main (lib := PyRef.library) cfg_set ext_smtp_down later_world).2 =
    files later_world.
Proof.
  assert ((main (lib := PyRef.library) cfg_set ext_smtp_down later_world).1 =
          Raise SMTPException) as Hraise by (vm_compute; reflexivity).
  split; [exact Hraise|].
  exact (proj1 (proj2 (alert_failure_skips_save (lib := PyRef.library)
                         cfg_set ext_smtp_down later_world) Hraise)).
Defined.

Lemma send_alert_guard_witness :
  EMAIL_PASS cfg_no_pass = None ∧
  send_alert (lib := PyRef.library) cfg_no_pass ext_up
    (diff old_state [cam_item]).2 first_world = (Ok tt, first_world).
Proof.
  split; [reflexivity|].
  apply send_alert_guard. right; right; left. reflexivity.
Defined.

Lemma unpriced_block_is_excluded_witness :
  ¬ has_dollar_amount (default (card_text unpriced) (card_price_el unpriced)) ∧
  scrape_cards (lib := PyRef.library) cards =
    scrape_cards (lib := PyRef.library) [cam; jumbo; cam_again].
Proof.
  assert (¬ has_dollar_amount (default (card_text unpriced) (card_price_el unpriced)))
    as Hno by (apply parse_price_None; vm_compute; reflexivity).
  split; [exact Hno|].
  exact (proj2 (proj2 (proj1 (unpriced_block_is_excluded (lib := PyRef.library) cards)
                         [cam; jumbo] unpriced [cam_again] eq_refl Hno))).
Defined.

(** Cam's text holds "8 in" and none of the labels before it, so "8 in"
    is its size and the iteration on its block appends Cam's item;
    Jumbo's text holds no label and its block goes. *)
Lemma size_is_first_matching_label_witness :
  (substring_of "8 in" (card_text cam) ∧
   (∀ l, l ∈ ["2.5 in"; "4 in"; "5 in"; "6 in"; "7 in"] →
      ¬ substring_of l (card_text cam)) ∧
   is_small_size (card_text cam) = Some "8 in" ∧
   scrape_card (lib := PyRef.library) ([], ∅) cam =
     Ok ([] ++ [cam_item], {[ cam_url ]} ∪ ∅)) ∧
  ((∀ l, l ∈ SMALL_SIZES → ¬ substring_of l (card_text jumbo)) ∧
   scrape_cards (lib := PyRef.library) cards =
     scrape_cards (lib := PyRef.library) [cam; unpriced; cam_again]).
Proof.
  pose proof (size_is_first_matching_label (lib := PyRef.library) cards)
    as (Hsome & _ & Hstep & _ & Hskip).
  assert (substring_of "8 in" (card_text cam)) as Hin
    by (apply str_in_spec; vm_compute; reflexivity).
  assert (∀ l, l ∈ ["2.5 in"; "4 in"; "5 in"; "6 in"; "7 in"] →
            ¬ substring_of l (card_text cam)) as Hbefore.
  { intros l Hl. apply str_in_false. revert l Hl.
    apply find_None_all. vm_compute. reflexivity. }
  assert (∀ l, l ∈ SMALL_SIZES → ¬ substring_of l (card_text jumbo)) as Hnone.
  { intros l Hl. apply str_in_false. revert l Hl.
    apply find_None_all. vm_compute. reflexivity. }
  split.
  - split; [exact Hin|]. split; [exact Hbefore|]. split.
    + apply (proj2 (Hsome (card_text cam) "8 in")).
      exists ["2.5 in"; "4 in"; "5 in"; "6 in"; "7 in"], [].
      exact (conj eq_refl (conj Hin Hbefore)).
    + apply (Hstep [] ∅ cam ["2.5 in"; "4 in"; "5 in"; "6 in"; "7 in"] "8 in" []
               15%float cam_url);
        [vm_compute; reflexivity | reflexivity | exact Hin | exact Hbefore
        | vm_compute; reflexivity | vm_compute; reflexivity
        | apply not_elem_of_empty].
  - split; [exact Hnone|].
    exact (proj2 (proj2 (Hskip [cam] jumbo [unpriced; cam_again] eq_refl Hnone))).
Defined.

Lemma first_block_of_a_key_wins_witness :
  card_url (lib := PyRef.library) cam = card_url (lib := PyRef.library) cam_again ∧
  scrape_cards (lib := PyRef.library) cards =
    scrape_cards (lib := PyRef.library) [cam; jumbo; unpriced].
Proof.
  split; [vm_compute; reflexivity|].
  refine (proj2 (proj2 (proj2 (first_block_of_a_key_wins (lib := PyRef.library) cards)))
            [] cam [jumbo; unpriced] cam_again [] eq_refl _ _ _).
  - vm_compute. eexists. reflexivity.
  - vm_compute. eexists. reflexivity.
  - vm_compute. reflexivity.
Defined.


End Witnesses.

(** ** The script on concrete inputs *)

Section Examples.
Import Sample.

Example parse_price_first_amount : parse_price "Now $12.50 each" = Some 12.5%float.
Proof. vm_compute. reflexivity. Qed.

(** A third decimal does not stop the pattern: it matches up to the
    second one. *)
Example parse_price_three_decimals : parse_price "$12.345" = Some (py_float "12.34").
Proof. vm_compute. reflexivity. Qed.

Example parse_price_no_amount : parse_price "$12.5 or 12.50 or $.50" = None.
Proof. vm_compute. reflexivity. Qed.

Example parse_price_leftmost : parse_price "$5 off, was $007.10 then $3.00" = Some (py_float "7.10").
Proof. vm_compute. reflexivity. Qed.

(** The order of SMALL_SIZES decides, not the order in the text. *)
Example is_small_size_list_order :
  is_small_size "Squishmallows 8 in and 5 in" = Some "5 in".
Proof. vm_compute. reflexivity. Qed.

(** Containment is on characters: the text of a 16 inch toy has "6 in". *)
Example is_small_size_sixteen : is_small_size "Squishmallows 16 in Plush" = Some "6 in".
Proof. vm_compute. reflexivity. Qed.

Example is_small_size_twelve : is_small_size "Squishmallows 12 in Plush" = None.
Proof. vm_compute. reflexivity. Qed.

Example lacks_keyword_case : lacks_keyword "squishmallow 5 in $3.00" = true.
Proof. vm_compute. reflexivity. Qed.

Example scrape_sample : scrape_cards (lib := PyRef.library) cards = Ok [cam_item].
Proof. vm_compute. reflexivity. Qed.

(** A host part with an open bracket: [urljoin] raises, and with it the
    loop and the run, although Cam's block was accepted before. *)
Example urljoin_open_bracket : PyRef.join_url SEARCH_URL "//[" = None.
Proof. vm_compute. reflexivity. Qed.

Example scrape_bad_link :
  scrape_cards (lib := PyRef.library) [cam; Sample2.bad_link] = Raise ValueError.
Proof. vm_compute. reflexivity. Qed.

Example run_bad_link :
  let '(r, w') := main (lib := PyRef.library) cfg_set Sample2.ext_bad_link later_world in
  r = Raise ValueError ∧ files w' = files later_world ∧
  trace w' = [EvHttpGet SEARCH_URL].
Proof. vm_compute. done. Qed.

(** A bracket in the path is no trouble, and a block that fails a test
    before line 113 never gets to [urljoin]. *)
Example urljoin_bracket_in_path :
  PyRef.join_url SEARCH_URL "/p/[x" = Some "https://www.frysfood.com/p/[x".
Proof. vm_compute. reflexivity. Qed.

Example scrape_skipped_bad_link :
  scrape_cards (lib := PyRef.library)
    [ {| card_text := "Squishmallows 12 in Jumbo Plush $39.99";
         card_name_el := None; card_tag_texts := [];
         card_price_el := None; card_href := Some "//[" |} ] = Ok [].
Proof. vm_compute. reflexivity. Qed.

(** The two cases of the spec: the same price, and a new price. *)
Example diff_same_price :
  (diff old_state [ {| item_key := cam_url; item_name := "Cam"; item_size := "8 in";
                       item_price := py_float "12.50"; item_url := cam_url |} ]).2 = [].
Proof. vm_compute. reflexivity. Qed.

Example diff_new_price :
  (diff old_state [cam_item]).2 =
  [ {| changed_name := "Squishmallows 8 in Cam the Cat Plush"; changed_size := "8 in";
       changed_url := cam_url; changed_old_price := 12.5; changed_price := 15 |} ].
Proof. vm_compute. reflexivity. Qed.

(** [!=] is exact: the next float after 12.5 is a change, and two amounts
    that read as the same float are not. *)
Example py_ne_next_float : py_ne 12.5 (next_up 12.5) = true.
Proof. vm_compute. reflexivity. Qed.

Example py_ne_same_float :
  py_ne (py_float "100000000000000000.01") (py_float "100000000000000000.02") = false.
Proof. vm_compute. reflexivity. Qed.

(** The first run writes the snapshot and sends nothing. *)
Example first_run :
  let '(r, w') := main (lib := PyRef.library) cfg_set ext_up first_world in
  r = Ok tt ∧ delivered (trace w') = [] ∧
  (files w' !! STATE_FILE) ≫= PyRef.load = Some (snapshot_of [cam_item]).
Proof. vm_compute. done. Qed.

(** The next run finds Cam at 15.00 instead of 12.50 and sends one
    message. *)
Example later_run :
  let '(r, w') := main (lib := PyRef.library) cfg_set ext_up later_world in
  r = Ok tt ∧
  email_subject <$> delivered (trace w') =
    ["[Fry's] Squishmallow price changes (1 item(s))"] ∧
  email_body <$> delivered (trace w') =
    ["Squishmallows 8 in Cam the Cat Plush (8 in)" +:+ nl +:+
     "Old price: 12.5" +:+ nl +:+ "New price: 15.0" +:+ nl +:+
     "Link: https://www.frysfood.com/p/squishmallows-cam/0001" +:+ nl] ∧
  (files w' !! STATE_FILE) ≫= PyRef.load = Some (snapshot_of [cam_item]).
Proof. vm_compute. done. Qed.

(** Without the password the same run sends nothing and still saves. *)
Example later_run_no_password :
  let '(r, w') := main (lib := PyRef.library) cfg_no_pass ext_smtp_down later_world in
  r = Ok tt ∧ filter is_smtp (trace w') = [] ∧ length (filter is_write (trace w')) = 1.
Proof. vm_compute. done. Qed.

(** [repr] as Python prints it. *)
Example float_repr_samples :
  PyRef.float_repr "inf" "nan" <$> [12.5; 15; 0.25; 1e16; 0.03125; 1234.5]%float =
  ["12.5"; "15.0"; "0.25"; "1e+16"; "0.03125"; "1234.5"].
Proof. vm_compute. reflexivity. Qed.

End Examples.

(** * Further properties of the code *)

(** ** The extractor *)

Section MoreListFacts.

Lemma keep_first_sublist (l : list Item) : keep_first l `sublist_of` l.
Proof.
  induction l as [|a l IH]; simpl; [done|].
  apply sublist_skip. etrans; [apply sublist_filter | exact IH].
Qed.

Lemma keep_first_keys (l : list Item) (k : string) :
  k ∈ item_key <$> keep_first l ↔ k ∈ item_key <$> l.
Proof.
  split.
  - intros Hk. eapply elem_of_sublist; [exact Hk|].
    apply fmap_sublist, keep_first_sublist.
  - induction l as [|a l IH]; [done|]. cbn [fmap list_fmap keep_first].
    rewrite !elem_of_cons. intros [->|Hk]; [by left|].
    destruct (decide (k = item_key a)) as [->|Hne]; [by left|]. right.
    apply IH in Hk. apply list_elem_of_fmap in Hk as (y & -> & Hy).
    apply list_elem_of_fmap. exists y. split; [done|].
    apply list_elem_of_filter. done.
Qed.

Lemma keep_first_app (a b : list Item) :
  keep_first (a ++ b) =
  keep_first a ++ filter (λ y, item_key y ∉ item_key <$> a) (keep_first b).
Proof.
  induction a as [|x a IH].
  - simpl. symmetry. apply filter_all. intros y. apply not_elem_of_nil.
  - cbn [app keep_first]. rewrite IH, filter_app. f_equal. f_equal.
    rewrite list_filter_filter. apply list_filter_iff. intros y.
    cbn [fmap list_fmap]. rewrite not_elem_of_cons. tauto.
Qed.

Lemma NoDup_const_length {A B} (f : A → B) (b : B) (l : list A) :
  NoDup (f <$> l) → (∀ x, x ∈ l → f x = b) → length l ≤ 1.
Proof.
  destruct l as [|x [|y l]]; simpl; [lia | lia |].
  intros Hnd Hall. exfalso.
  apply NoDup_cons in Hnd as [Hx _]. apply Hx.
  rewrite (Hall x), <- (Hall y) by (rewrite !elem_of_cons; auto). left.
Qed.

End MoreListFacts.

Section MoreExtractor.
Context {lib : Library}.

Lemma lacks_keyword_true text :
  ¬ substring_of "Squishmallow" text → lacks_keyword text = true.
Proof.
  intros Hno%str_in_false. unfold lacks_keyword. rewrite Hno. simpl.
  destruct (str_in "Squishmallows" text) eqn:Hpl; [|done].
  by rewrite (plural_has_singular _ Hpl) in Hno.
Qed.

Lemma extract_url c it : extract c = Ok (Some it) → item_url it = item_key it.
Proof. by intros (_ & _ & _ & _ & Hu & _)%extract_Some. Qed.

(** A block without a link does not raise. *)
Lemma extract_linkless c : card_href c = None → ∃ o, extract c = Ok o.
Proof.
  intros Hno. unfold extract, card_url. rewrite Hno.
  repeat case_match; simpl; eauto.
Qed.

Lemma extract_all_returns cards :
  (∀ c, c ∈ cards → ∃ o, extract c = Ok o) →
  ∃ accepted, extract_all cards = Ok accepted.
Proof.
  induction cards as [|c cards IH]; intros Hall; cbn [extract_all]; [eauto|].
  destruct (Hall c) as [o ->]; [left|].
  destruct IH as [accepted ->]; [intros c' Hc'; apply Hall; by right|].
  simpl. eauto.
Qed.

(** X1: a block whose flattened text does not contain "Squishmallow"
    leaves the loop's state as it is, whatever else it holds, and can be
    taken out of the page without changing what the extractor returns. *)
Theorem keyword_less_block_is_excluded (l1 : list card) (c : card) (l2 : list card) :
  ¬ substring_of "Squishmallow" (card_text c) →
  (∀ st, scrape_card st c = Ok st) ∧
  scrape_cards (l1 ++ c :: l2) = scrape_cards (l1 ++ l2).
Proof.
  intros Hk%lacks_keyword_true. split.
  - intros [items seen]. unfold scrape_card. by rewrite Hk.
  - apply scrape_cards_skip. unfold extract. by rewrite Hk.
Qed.

(** X2: scraping two runs of blocks one after the other gives the items
    of the first run, unchanged and in place, followed by those items of
    the second run whose key the first run did not yield; and it raises
    when one of the two runs does. *)
Theorem scrape_cards_app (l1 l2 : list card) :
  scrape_cards (l1 ++ l2) =
  i1 ← scrape_cards l1; i2 ← scrape_cards l2;
  Ok (i1 ++ filter (λ it, item_key it ∉ item_key <$> i1) i2).
Proof.
  rewrite !scrape_cards_keep_first, extract_all_app.
  destruct (extract_all l1) as [a|e]; [|done].
  destruct (extract_all l2) as [b|e]; [|done].
  simpl. f_equal. rewrite keep_first_app. f_equal.
  apply list_filter_iff. intros it. by rewrite keep_first_keys.
Qed.

(** X3: a block without a link gets the search URL as its key, so when no
    block of the page has a link the extractor returns, and its output
    holds at most one item. *)
Theorem linkless_page_yields_one_item (cards : list card) :
  (∀ c, c ∈ cards → card_href c = None) →
  ∃ items, scrape_cards cards = Ok items ∧
    length items ≤ 1 ∧
    ∀ it, it ∈ items → item_key it = SEARCH_URL.
Proof.
  intros Hno.
  destruct (extract_all_returns cards) as [accepted Hall].
  { intros c Hc. by apply extract_linkless, Hno. }
  assert (scrape_cards cards = Ok (keep_first accepted)) as Hitems
    by (apply scrape_cards_Ok; eauto).
  exists (keep_first accepted). split; [done|].
  assert (∀ it, it ∈ keep_first accepted → item_key it = SEARCH_URL) as Hkey.
  { intros it Hin.
    destruct (scrape_cards_source _ _ _ Hitems Hin) as (c & Hc & Hex).
    apply extract_Some in Hex as (_ & _ & _ & Hu & _).
    unfold card_url in Hu. rewrite (Hno c Hc) in Hu. congruence. }
  split; [|done].
  apply (NoDup_const_length item_key SEARCH_URL); [|done].
  apply keep_first_NoDup.
Qed.

(** X4: the output keeps the order of the page and invents nothing: it
    is a sublist of the items of the accepted blocks, so it is never
    longer than the page; and in every item of it the url and the key are
    the same string. *)
Theorem scrape_cards_sublist (cards : list card) (items : list Item) :
  scrape_cards cards = Ok items →
  (∃ accepted, extract_all cards = Ok accepted ∧ items `sublist_of` accepted) ∧
  length items ≤ length cards ∧
  ∀ it, it ∈ items → item_url it = item_key it.
Proof.
  intros Hitems.
  pose proof Hitems as (accepted & Hall & ->)%scrape_cards_Ok.
  split_and!.
  - exists accepted. split; [done | apply keep_first_sublist].
  - etrans; [apply sublist_length, keep_first_sublist|].
    by apply extract_all_length.
  - intros it Hin.
    destruct (scrape_cards_source _ _ _ Hitems Hin) as (c & _ & Hex).
    by eapply extract_url.
Qed.

Lemma slice_to_prefix n s : ∃ rest, s = slice_to n s +:+ rest.
Proof.
  revert s. induction n as [|n IH]; intros s.
  - exists s. by destruct s.
  - destruct s as [|c s]; [by exists ""|].
    destruct (IH s) as [rest Hrest]. exists rest.
    cbn [slice_to]. by rewrite append_cons, <- Hrest.
Qed.

Lemma slice_to_length n s : String.length (slice_to n s) ≤ n.
Proof.
  revert s. induction n as [|n IH]; intros [|c s]; simpl; try lia.
  specialize (IH s). lia.
Qed.

Lemma str_in_truthy needle hay :
  truthy needle = true → str_in needle hay = true → truthy hay = true.
Proof. destruct needle; [done|]. by destruct hay. Qed.

(** X5: the name of a block is the text of its name element when it has
    one; otherwise the text of the first heading, strong or link tag that
    contains "Squish"; and only when no such tag exists the first 80
    characters of the block's text, a prefix of it of length at most 80. *)
Theorem card_name_cases (c : card) :
  match card_name_el c with
  | Some txt => card_name c = txt
  | None =>
      (∃ before after,
         card_tag_texts c = before ++ card_name c :: after ∧
         substring_of "Squish" (card_name c) ∧
         ∀ txt, txt ∈ before → ¬ substring_of "Squish" txt) ∨
      ((∀ txt, txt ∈ card_tag_texts c → ¬ substring_of "Squish" txt) ∧
       card_name c = slice_to 80 (card_text c) ∧
       String.length (card_name c) ≤ 80 ∧
       ∃ rest, card_text c = card_name c +:+ rest)
  end.
Proof.
  unfold card_name. destruct (card_name_el c) as [txt|]; [done|].
  destruct (List.find (str_in "Squish") (card_tag_texts c)) as [txt|] eqn:Hfind.
  - left. apply find_Some_first in Hfind as (before & after & Hl & Hin & Hbefore).
    rewrite (str_in_truthy "Squish" txt) by done.
    exists before, after. split_and!; [done | by apply str_in_spec |].
    intros u Hu. by apply str_in_false, Hbefore.
  - right. split_and!; [| done | apply slice_to_length | apply slice_to_prefix].
    intros u Hu. apply str_in_false. revert u Hu. by apply find_None_all.
Qed.

End MoreExtractor.

(** ** The price *)

Section MorePrice.

Lemma re_search_here text g : match_here text = Some g → re_search text = Some g.
Proof. intros Hm. destruct text; cbn [re_search]; by rewrite Hm. Qed.

Lemma match_here_other c s : c ≠ "$"%char → match_here (String c s) = None.
Proof.
  intros Hc. unfold match_here. destruct s; [done|].
  by destruct (decide (c = "$"%char)).
Qed.

Lemma no_dollar_cons c s :
  str_in "$" (String c s) = false → c ≠ "$"%char ∧ str_in "$" s = false.
Proof.
  cbn [str_in is_prefix]. intros [Hc Hs]%orb_false_iff. split; [|done].
  intros ->. by destruct (decide _).
Qed.

(** X6: the first amount wins, and what follows it is not looked at: when
    no dollar sign comes before it, a dollar sign followed by digits, a
    point and two digits makes [parse_price] return the number read from
    exactly these characters, whatever the rest of the text is. *)
Theorem parse_price_takes_first_amount (pre g post : string) :
  str_in "$" pre = false → amount g →
  parse_price (pre +:+ String "$"%char g +:+ post) = Some (py_float g).
Proof.
  intros Hpre Hg. unfold parse_price.
  assert (re_search (pre +:+ String "$"%char g +:+ post) = Some g) as ->; [|done].
  induction pre as [|c pre IH].
  - rewrite append_nil_l. apply re_search_here, match_here_spec. eauto.
  - apply no_dollar_cons in Hpre as [Hc Hpre]. rewrite append_cons.
    cbn [re_search]. rewrite (match_here_other _ _ Hc). by apply IH.
Qed.

(** X7: a text without a dollar sign has no price, whatever numbers it
    holds. *)
Theorem parse_price_needs_dollar (text : string) :
  str_in "$" text = false → parse_price text = None.
Proof.
  intros Hno. apply parse_price_None. intros (g & _ & Hsub).
  apply str_in_false in Hno. apply Hno.
  by apply (substring_of_app_l "$" g).
Qed.

Lemma read_decimal_digits ds rest num scale :
  all_digits ds →
  read_decimal (ds +:+ rest) num scale false =
  read_decimal rest (decimal_value num ds) scale false.
Proof.
  revert num. induction ds as [|c ds IH]; intros num Hds; [done|].
  apply all_digits_cons in Hds as [Hc Hds].
  rewrite append_cons. cbn [read_decimal decimal_value]. rewrite Hc. by apply IH.
Qed.

Lemma decimal_value_app ds es num :
  decimal_value num (ds +:+ es) = decimal_value (decimal_value num ds) es.
Proof.
  revert num. induction ds as [|c ds IH]; intros num; [done|].
  rewrite append_cons. cbn [decimal_value]. apply IH.
Qed.

(** X8: the float of a matched amount is that of its cents over 100: the
    digits before and after the point read as one decimal number, divided
    by one hundred. *)
Theorem py_float_amount (ds : string) (d1 d2 : ascii) :
  all_digits ds → is_digit d1 = true → is_digit d2 = true →
  py_float (ds +:+ frac d1 d2) =
  float_of_ratio (decimal_value 0 (ds +:+ String d1 (String d2 ""))) 100.
Proof.
  intros Hds H1 H2. unfold py_float.
  rewrite (read_decimal_digits ds _ 0%N 1%N Hds). unfold frac.
  cbn [read_decimal]. change (is_digit "."%char) with false. cbv iota.
  rewrite H1, H2. rewrite decimal_value_app. cbn [decimal_value].
  f_equal.
Qed.

End MorePrice.

(** ** The notifier *)

Section MoreStrFacts.

Lemma append_nil_r (s : string) : s +:+ "" = s.
Proof. induction s as [|c s IH]; [done|]. by rewrite append_cons, IH. Qed.

Lemma substring_of_head a b : substring_of a (a +:+ b).
Proof. exists "", b. by rewrite append_nil_l. Qed.

Lemma substring_of_app_r x a b : substring_of x b → substring_of x (a +:+ b).
Proof.
  intros (pre & post & ->). exists (a +:+ pre), post. by rewrite append_assoc.
Qed.

Lemma substring_of_trans a b c :
  substring_of a b → substring_of b c → substring_of a c.
Proof.
  intros (p1 & q1 & ->) (p2 & q2 & ->). exists (p2 +:+ p1), (q1 +:+ q2).
  by rewrite !append_assoc.
Qed.

Lemma substring_of_join sep parts p :
  p ∈ parts → substring_of p (join sep parts).
Proof.
  induction parts as [|a parts IH]; [by intros ?%elem_of_nil|].
  intros [->|Hp]%elem_of_cons.
  - destruct parts; [exists "", ""; by rewrite append_nil_l, append_nil_r|].
    cbn [join]. apply substring_of_head.
  - destruct parts as [|b parts]; [by apply elem_of_nil in Hp|].
    cbn [join]. by apply substring_of_app_r, substring_of_app_r, IH.
Qed.

Lemma truthy_Some_ne (s : string) : s ≠ "" → truthy s = true.
Proof. by destruct s. Qed.

End MoreStrFacts.

Section MoreNotifier.
Context {lib : Library} (cfg : config) (ext : external).

(** X9: with a non-empty changed list and the three values set to
    non-empty strings, [send_alert] opens exactly one SMTP session, with
    EMAIL_USER and EMAIL_PASS as login, for one message from EMAIL_USER to
    ALERT_TO whose subject gives the number of changed items; it returns
    normally when the session goes through and raises when it does not,
    and it leaves the files alone. *)
Theorem send_alert_opens_one_session (changed_items : list ChangedItem) (w : world)
    (user pass to : string) :
  changed_items ≠ [] →
  EMAIL_USER cfg = Some user → EMAIL_PASS cfg = Some pass → ALERT_TO cfg = Some to →
  user ≠ "" → pass ≠ "" → to ≠ "" →
  ∃ msg,
    let ok := smtp_session ext SMTP_SERVER SMTP_PORT user pass msg in
    send_alert cfg ext changed_items w =
      (if ok then Ok tt else Raise SMTPException,
       {| files := files w; trace := trace w ++ [EvSmtp msg ok] |}) ∧
    email_from msg = user ∧ email_to msg = to ∧
    email_subject msg =
      "[Fry's] Squishmallow price changes (" +:+
      pretty (length changed_items) +:+ " item(s))".
Proof.
  intros Hne Hu Hp Ht Hu' Hp' Ht'. unfold send_alert.
  rewrite bool_decide_eq_false_2 by done.
  rewrite Hu, Hp, Ht. simpl.
  rewrite !truthy_Some_ne by done. simpl.
  match goal with |- context [smtp_send _ _ _ ?m] => exists m end.
  split; [|done].
  unfold smtp_send, mbind, M_bind, emit. simpl.
  by destruct (smtp_session ext _ _ _ _ _).
Qed.

(** X10: an empty string counts as unset: when one of EMAIL_USER,
    EMAIL_PASS and ALERT_TO is the empty string, [send_alert] returns
    normally without opening a session, whatever the changed list. *)
Theorem empty_credential_sends_nothing (changed_items : list ChangedItem) (w : world) :
  EMAIL_USER cfg = Some "" ∨ EMAIL_PASS cfg = Some "" ∨ ALERT_TO cfg = Some "" →
  send_alert cfg ext changed_items w = (Ok tt, w).
Proof.
  unfold send_alert. intros [Hu|[Hp|Ht]].
  - rewrite Hu. simpl. by rewrite orb_true_r.
  - rewrite Hp. simpl. by rewrite andb_false_r, orb_true_r.
  - rewrite Ht. simpl. by rewrite andb_false_r, orb_true_r.
Qed.

Lemma alert_lines_mentions (c : ChangedItem) :
  substring_of (changed_name c) (alert_lines c) ∧
  substring_of (changed_size c) (alert_lines c) ∧
  substring_of ("Old price: " +:+ str_of_float (changed_old_price c)) (alert_lines c) ∧
  substring_of ("New price: " +:+ str_of_float (changed_price c)) (alert_lines c) ∧
  substring_of ("Link: " +:+ changed_url c) (alert_lines c).
Proof.
  unfold alert_lines. split_and!.
  - apply substring_of_head.
  - do 2 apply substring_of_app_r. apply substring_of_head.
  - do 5 apply substring_of_app_r. rewrite <- append_assoc.
    apply substring_of_head.
  - do 8 apply substring_of_app_r. rewrite <- append_assoc.
    apply substring_of_head.
  - do 11 apply substring_of_app_r. rewrite <- append_assoc.
    apply substring_of_head.
Qed.

Lemma send_alert_session (changed_items : list ChangedItem) (w : world) :
  send_alert cfg ext changed_items w = (Ok tt, w) ∨
  ∃ (msg : email) (ok : bool),
    email_body msg = join (nl +:+ "---" +:+ nl) (alert_lines <$> changed_items) ∧
    send_alert cfg ext changed_items w =
      (if ok then Ok tt else Raise SMTPException,
       {| files := files w; trace := trace w ++ [EvSmtp msg ok] |}).
Proof.
  unfold send_alert. destruct (_ || _); [by left|].
  right. unfold smtp_send, mbind, M_bind, emit. simpl.
  match goal with |- context [EvSmtp ?m ?o] => exists m, o end.
  split; [done|]. by destruct (smtp_session ext _ _ _ _ _).
Qed.

Lemma alert_body_mentions (changed_items : list ChangedItem) (c : ChangedItem) :
  c ∈ changed_items →
  let body := join (nl +:+ "---" +:+ nl) (alert_lines <$> changed_items) in
  substring_of (changed_name c) body ∧
  substring_of (changed_size c) body ∧
  substring_of ("Old price: " +:+ str_of_float (changed_old_price c)) body ∧
  substring_of ("New price: " +:+ str_of_float (changed_price c)) body ∧
  substring_of ("Link: " +:+ changed_url c) body.
Proof.
  intros Hc body.
  assert (substring_of (alert_lines c) body) as Hblock.
  { apply substring_of_join, list_elem_of_fmap. eauto. }
  destruct (alert_lines_mentions c) as (H1 & H2 & H3 & H4 & H5).
  split_and!; eapply substring_of_trans; eauto.
Qed.

(** X11: the body of a message that [send_alert] hands to the server
    names every changed item: for each of them it contains the item's
    name, its size, the line of its old price, the line of its new price
    and the line of its link. *)
Theorem alert_body_lists_every_item (changed_items : list ChangedItem) (w : world)
    (msg : email) (ok : bool) (c : ChangedItem) :
  EvSmtp msg ok ∈ new_events w (send_alert cfg ext changed_items w).2 →
  c ∈ changed_items →
  substring_of (changed_name c) (email_body msg) ∧
  substring_of (changed_size c) (email_body msg) ∧
  substring_of ("Old price: " +:+ str_of_float (changed_old_price c)) (email_body msg) ∧
  substring_of ("New price: " +:+ str_of_float (changed_price c)) (email_body msg) ∧
  substring_of ("Link: " +:+ changed_url c) (email_body msg).
Proof.
  intros Hev Hc.
  destruct (send_alert_session changed_items w) as [Hs|(m & o & Hbody & Hs)];
    rewrite Hs in Hev; cbn [snd] in Hev.
  - rewrite (new_events_app w w []) in Hev by (by rewrite app_nil_r).
    by apply elem_of_nil in Hev.
  - erewrite new_events_app in Hev by reflexivity.
    apply list_elem_of_singleton in Hev. injection Hev as -> _.
    rewrite Hbody. by apply alert_body_mentions.
Qed.

End MoreNotifier.

(** ** The diff and the new snapshot *)

Section MoreDiff.

Lemma find_app {A} (P : A → bool) (l1 l2 : list A) :
  List.find P (l1 ++ l2) =
  match List.find P l1 with Some x => Some x | None => List.find P l2 end.
Proof. induction l1 as [|a l1 IH]; simpl; [done|]. by destruct (P a). Qed.

Lemma find_filter {A} (P : A → bool) (Q : A → Prop) `{!∀ x, Decision (Q x)}
    (l : list A) :
  (∀ x, P x = true → Q x) → List.find P (filter Q l) = List.find P l.
Proof.
  intros HPQ. induction l as [|a l IH]; [done|].
  rewrite filter_cons. destruct (decide (Q a)) as [Ha|Ha]; simpl.
  - by rewrite IH.
  - destruct (P a) eqn:HP; [by destruct Ha; apply HPQ | done].
Qed.

Lemma find_keep_first k (l : list Item) :
  List.find (has_key k) (keep_first l) = List.find (has_key k) l.
Proof.
  induction l as [|a l IH]; [done|]. cbn [keep_first List.find].
  destruct (has_key k a) eqn:Ha; [done|].
  rewrite find_filter; [done|].
  intros x Hx Heq. unfold has_key in *.
  apply bool_decide_eq_true in Hx. apply bool_decide_eq_false in Ha. congruence.
Qed.

Lemma find_has_key_None k (l : list Item) :
  List.find (has_key k) l = None ↔ k ∉ item_key <$> l.
Proof.
  rewrite find_None_all, list_elem_of_fmap. unfold has_key. split.
  - intros Hall (x & -> & Hx). specialize (Hall x Hx).
    by apply bool_decide_eq_false in Hall.
  - intros Hno x Hx. apply bool_decide_eq_false. intros <-. apply Hno. eauto.
Qed.

Lemma find_has_key_reverse_None k (l : list Item) :
  List.find (has_key k) (reverse l) = None ↔ k ∉ item_key <$> l.
Proof. by rewrite find_has_key_None, fmap_reverse, elem_of_reverse. Qed.

Lemma find_has_key_NoDup (l : list Item) (it : Item) :
  NoDup (item_key <$> l) → it ∈ l → List.find (has_key (item_key it)) l = Some it.
Proof.
  induction l as [|a l IH]; [by intros _ ?%elem_of_nil|].
  cbn [fmap list_fmap]. intros [Ha Hnd]%NoDup_cons [->|Hin]%elem_of_cons.
  - simpl. unfold has_key. by rewrite bool_decide_eq_true_2.
  - simpl. unfold has_key at 1. rewrite bool_decide_eq_false_2; [by apply IH|].
    intros Heq. apply Ha. rewrite Heq. apply list_elem_of_fmap. eauto.
Qed.

(** The loop's dict assignment: the last item of a key stays. *)
Lemma foldl_insert_lookup (l : list Item) (m : Snapshot) (k : string) :
  foldl (λ (m : Snapshot) it, <[item_key it := entry_of it]> m) m l !! k =
  match List.find (has_key k) (reverse l) with
  | Some it => Some (entry_of it)
  | None => m !! k
  end.
Proof.
  revert m. induction l as [|a l IH]; intros m; [done|].
  cbn [foldl]. rewrite IH, reverse_cons, find_app. simpl.
  destruct (List.find (has_key k) (reverse l)); [done|].
  unfold has_key. case_bool_decide as Hk.
  - by rewrite Hk, lookup_insert_eq.
  - by rewrite lookup_insert_ne.
Qed.

Lemma omap_ext_in {A B} (f g : A → option B) (l : list A) :
  (∀ x, x ∈ l → f x = g x) → omap f l = omap g l.
Proof.
  induction l as [|a l IH]; intros Hfg; [done|]. cbn [omap list_omap].
  rewrite (Hfg a) by left. rewrite IH; [done|]. intros x Hx. apply Hfg. by right.
Qed.

Lemma omap_all_None {A B} (f : A → option B) (l : list A) :
  (∀ x, x ∈ l → f x = None) → omap f l = [].
Proof.
  induction l as [|a l IH]; intros Hf; [done|]. cbn [omap list_omap].
  rewrite (Hf a) by left. apply IH. intros x Hx. apply Hf. by right.
Qed.

(** X12: a change needs an old entry: with the empty old snapshot the
    changed list is empty, so the test on the old snapshot at line 163
    never decides alone: the alert is due exactly when the changed list
    is non-empty.  The changed list is never longer than the list of
    current items. *)
Theorem changes_need_old_entries (old_state : Snapshot) (current_items : list Item) :
  (diff ∅ current_items).2 = [] ∧
  alert_due old_state (diff old_state current_items).2 =
    negb (bool_decide ((diff old_state current_items).2 = [])) ∧
  length (diff old_state current_items).2 ≤ length current_items.
Proof.
  assert (∀ items, (diff ∅ items).2 = []) as Hempty.
  { intros items. rewrite diff_eq. simpl. apply omap_all_None.
    intros it _. unfold changed_of. by rewrite lookup_empty. }
  split_and!; [done | |].
  - unfold alert_due. case_bool_decide as Hold; [|done].
    subst old_state. by rewrite Hempty.
  - rewrite diff_eq. simpl. clear.
    induction current_items as [|it items IH]; [done|].
    cbn [omap list_omap]. destruct (changed_of old_state it); cbn [length]; lia.
Qed.

(** X13: the new snapshot has an entry for a key exactly when a current
    item has that key, whatever the old snapshot held: keys that are no
    longer on the page are dropped without a trace, and removing such a
    key from the old snapshot changes neither the changed list nor the
    new snapshot. *)
Theorem vanished_keys_are_silent (old_state : Snapshot) (current_items : list Item)
    (key : string) :
  ((diff old_state current_items).1 !! key = None ↔
     key ∉ item_key <$> current_items) ∧
  (key ∉ item_key <$> current_items →
     diff (delete key old_state) current_items = diff old_state current_items).
Proof.
  rewrite !diff_eq. simpl. split.
  - unfold snapshot_of. rewrite foldl_insert_lookup, lookup_empty.
    rewrite <- find_has_key_reverse_None.
    by destruct (List.find _ _).
  - intros Hno. f_equal. apply omap_ext_in. intros it Hit.
    unfold changed_of. rewrite lookup_delete_ne; [done|].
    intros ->. apply Hno, list_elem_of_fmap. eauto.
Qed.

(** X14: the loop of [main] alone lets the last item of a key stand in
    the new snapshot: an entry is that of the last current item with its
    key. *)
Theorem diff_last_item_of_a_key_stays (old_state : Snapshot)
    (current_items : list Item) (key : string) :
  (diff old_state current_items).1 !! key =
  entry_of <$> List.find (has_key key) (reverse current_items).
Proof.
  rewrite diff_eq. simpl. unfold snapshot_of.
  rewrite foldl_insert_lookup, lookup_empty. by destruct (List.find _ _).
Qed.

End MoreDiff.

(** ** The run as a whole *)

Section MoreRun.
Context {lib : Library} (cfg : config) (ext : external).

Lemma NoDup_reverse {A} (l : list A) : NoDup l → NoDup (reverse l).
Proof. intros Hl. by rewrite reverse_Permutation. Qed.

Lemma scrape_cards_NoDup (cards : list card) (items : list Item) :
  scrape_cards cards = Ok items → NoDup (item_key <$> items).
Proof. intros (accepted & _ & ->)%scrape_cards_Ok. apply keep_first_NoDup. Qed.

(** When one block raises. *)
Lemma extract_Raise c :
  extract c = Raise ValueError ↔
  lacks_keyword (card_text c) = false ∧
  is_Some (is_small_size (card_text c)) ∧
  is_Some (parse_price (card_price_text c)) ∧
  ∃ href, card_href c = Some href ∧ urljoin SEARCH_URL href = None.
Proof.
  unfold extract, card_url.
  destruct (lacks_keyword (card_text c)).
  { split; [done | by intros (? & _)]. }
  destruct (is_small_size (card_text c)) as [size|].
  2:{ split; [done | by intros (_ & [? ?] & _)]. }
  destruct (parse_price (card_price_text c)) as [price|].
  2:{ split; [done | by intros (_ & _ & [? ?] & _)]. }
  destruct (card_href c) as [href|].
  2:{ split; [done | by intros (_ & _ & _ & ? & ? & _)]. }
  destruct (urljoin SEARCH_URL href) eqn:Hjoin; simpl.
  - split; [done | intros (_ & _ & _ & ? & [= <-] & ?); congruence].
  - split; [|done]. intros _. split_and!; eauto.
Qed.

Lemma extract_all_Raise cards :
  extract_all cards = Raise ValueError ↔
  ∃ c, c ∈ cards ∧ extract c = Raise ValueError.
Proof.
  induction cards as [|c cards IH]; cbn [extract_all].
  { split; [done | by intros (c & ?%elem_of_nil & _)]. }
  destruct (extract c) as [o|e] eqn:Hc; cbn [mbind result_bind].
  - destruct (extract_all cards) as [rest|e] eqn:Hrest.
    + split; [done|]. intros (c' & [->|Hc']%elem_of_cons & Hraise); [congruence|].
      assert (Ok rest = Raise ValueError) as Heq by (apply IH; eauto).
      discriminate Heq.
    + assert (e = ValueError) as -> by (by eapply extract_all_raises).
      split; [|done].
      intros _. destruct (proj1 IH eq_refl) as (c' & Hc' & Hraise).
      exists c'. split; [by right | done].
  - assert (e = ValueError) as -> by (by eapply extract_raises).
    split; [|done]. intros _. exists c. split; [left | done].
Qed.

(** X15: extractor and diff together: the new snapshot's entry for a URL
    is the one of the first accepted block of the page with that URL, and
    its url field is its key. *)
Theorem snapshot_entry_is_first_block (old_state : Snapshot) (cards : list card)
    (items : list Item) (key : string) :
  scrape_cards cards = Ok items →
  ∃ accepted, extract_all cards = Ok accepted ∧
    (diff old_state items).1 !! key =
      entry_of <$> List.find (has_key key) accepted ∧
    ∀ e, (diff old_state items).1 !! key = Some e → entry_url e = key.
Proof.
  intros (accepted & Hall & ->)%scrape_cards_Ok.
  exists accepted. split; [done|].
  assert ((diff old_state (keep_first accepted)).1 !! key =
          entry_of <$> List.find (has_key key) accepted) as Heq.
  { rewrite diff_eq. simpl. unfold snapshot_of.
    rewrite foldl_insert_lookup, lookup_empty.
    rewrite <- (find_keep_first key accepted).
    destruct (List.find (has_key key) (keep_first accepted)) as [it|] eqn:Hf.
    - apply find_Some_first in Hf as (pre & post & Hl & Hk & _).
      apply bool_decide_eq_true in Hk. subst key.
      rewrite find_has_key_NoDup; [done | |].
      + rewrite fmap_reverse. apply NoDup_reverse, keep_first_NoDup.
      + apply elem_of_reverse. rewrite Hl. set_solver.
    - apply find_has_key_None in Hf.
      by rewrite (proj2 (find_has_key_reverse_None key (keep_first accepted))). }
  split; [done|]. rewrite Heq. intros e.
  destruct (List.find (has_key key) accepted) as [it|] eqn:Hf; [|done].
  intros [= <-].
  apply find_Some_first in Hf as (pre & post & Hl & Hk & _).
  apply bool_decide_eq_true in Hk.
  assert (it ∈ accepted) as Hin by (rewrite Hl; set_solver).
  destruct (extract_all_source _ _ _ Hall Hin) as (c & _ & Hex).
  simpl. by rewrite (extract_url _ _ Hex).
Qed.

(** X16: the run ends with the request's exception exactly when the old
    state was read and the request failed; then the request is all the
    run did: the files are what they were, no session, no write. *)
Theorem fetch_failure_changes_nothing (w : world) :
  ((main cfg ext w).1 = Raise RequestException ↔
   (∃ old, load_state w = (Ok old, w)) ∧ http_get ext SEARCH_URL = None) ∧
  ((main cfg ext w).1 = Raise RequestException →
   files (main cfg ext w).2 = files w ∧
   new_events w (main cfg ext w).2 = [EvHttpGet SEARCH_URL]).
Proof.
  pose proof (main_outcome cfg ext w) as Hrun. cbv zeta in Hrun.
  assert ((main cfg ext w).1 = Raise RequestException →
          (∃ old, load_state w = (Ok old, w)) ∧ http_get ext SEARCH_URL = None ∧
          files (main cfg ext w).2 = files w ∧
          new_events w (main cfg ext w).2 = [EvHttpGet SEARCH_URL]) as Hfwd.
  { intros Hr.
    destruct Hrun as [(e & Hload & Hr' & _)|(old & Hload & Hrun)].
    { rewrite Hr in Hr'. injection Hr' as <-.
      unfold load_state in Hload. repeat case_match; congruence. }
    destruct Hrun as [(Hget & _ & Hw)|(page & _ & Hrun)].
    + split_and!; [eauto | done | by rewrite Hw |].
      rewrite Hw. by apply new_events_app.
    + destruct Hrun as [(_ & Hr' & _)|(items & _ & Hrun)]; [congruence|].
      destruct Hrun as [(Hr' & _)|[(m & _ & Hr' & _)|(m & _ & Hr' & _)]];
        congruence. }
  split; [split|].
  - intros Hr. destruct (Hfwd Hr) as (? & ? & _). done.
  - intros ([old Hload] & Hget).
    destruct Hrun as [(e & Hload' & _)|(old' & _ & Hrun)]; [congruence|].
    destruct Hrun as [(_ & Hr & _)|(page & Hget' & _)]; congruence.
  - intros Hr. destruct (Hfwd Hr) as (_ & _ & ? & ?). done.
Qed.

(** X17: the run ends with the decoder's exception exactly when the
    state file exists and its text is refused; then the run did nothing
    at all: no request was made and the world is what it was. *)
Theorem unreadable_state_stops_the_run (w : world) :
  ((main cfg ext w).1 = Raise JSONDecodeError ↔
   ∃ content, files w !! STATE_FILE = Some content ∧ json_load content = None) ∧
  ((main cfg ext w).1 = Raise JSONDecodeError → (main cfg ext w).2 = w).
Proof.
  pose proof (main_outcome cfg ext w) as Hrun. cbv zeta in Hrun.
  assert ((main cfg ext w).1 = Raise JSONDecodeError →
          (∃ content, files w !! STATE_FILE = Some content ∧
                      json_load content = None) ∧
          (main cfg ext w).2 = w) as Hfwd.
  { intros Hr.
    destruct Hrun as [(e & Hload & _ & Hw)|(old & Hload & Hrun)].
    + split; [|done]. unfold load_state in Hload.
      destruct (files w !! STATE_FILE) as [content|]; [|done].
      exists content. split; [done|]. by destruct (json_load content).
    + destruct Hrun as [(_ & Hr' & _)|(page & _ & Hrun)]; [congruence|].
      destruct Hrun as [(_ & Hr' & _)|(items & _ & Hrun)]; [congruence|].
      destruct Hrun as [(Hr' & _)|[(m & _ & Hr' & _)|(m & _ & Hr' & _)]];
        congruence. }
  split; [split|].
  - intros Hr. by destruct (Hfwd Hr).
  - intros (content & Hfile & Hbad).
    destruct Hrun as [(e & Hload & Hr & _)|(old & Hload & _)];
      unfold load_state in Hload; rewrite Hfile, Hbad in Hload; congruence.
  - intros Hr. by destruct (Hfwd Hr).
Qed.

(** X18: a run changes no file but the state file. *)
Theorem main_touches_only_state_file (w : world) (path : string) :
  path ≠ STATE_FILE →
  files (main cfg ext w).2 !! path = files w !! path.
Proof.
  intros Hpath.
  pose proof (main_outcome cfg ext w) as Hrun. cbv zeta in Hrun.
  destruct Hrun as [(e & _ & _ & ->)|(old & _ & Hrun)]; [done|].
  destruct Hrun as [(_ & _ & ->)|(page & _ & Hrun)]; [done|].
  destruct Hrun as [(_ & _ & ->)|(items & _ & Hrun)]; [done|].
  destruct Hrun as [(_ & -> & _)|[(m & _ & _ & -> & _)|(m & _ & _ & -> & _)]];
    [by rewrite lookup_insert_ne.. | done].
Qed.

(** X19: a run makes at most one request, opens at most one SMTP session
    and writes at most once; it ends normally exactly when it wrote the
    state file. *)
Theorem main_does_each_step_once (w : world) :
  let evs := new_events w (main cfg ext w).2 in
  length (filter (λ e, is_smtp e = true) evs) ≤ 1 ∧
  length (filter (λ e, is_write e = true) evs) ≤ 1 ∧
  length (filter (λ e, is_smtp e = false ∧ is_write e = false) evs) ≤ 1 ∧
  ((main cfg ext w).1 = Ok tt ↔ length (filter (λ e, is_write e = true) evs) = 1).
Proof.
  pose proof (main_outcome cfg ext w) as Hrun. cbv zeta in *.
  destruct Hrun as [(e & _ & -> & ->)|(old & _ & Hrun)].
  { rewrite (new_events_app w w []) by (by rewrite app_nil_r).
    compute. split_and!; (lia || congruence). }
  destruct Hrun as [(_ & -> & ->)|(page & _ & Hrun)].
  { rewrite (new_events_app w (fetched w) [EvHttpGet SEARCH_URL]) by done.
    compute. split_and!; (lia || congruence). }
  destruct Hrun as [(_ & -> & ->)|(items & _ & Hrun)].
  { rewrite (new_events_app w (fetched w) [EvHttpGet SEARCH_URL]) by done.
    compute. split_and!; (lia || congruence). }
  destruct Hrun as [(-> & _ & Ht)|[(m & _ & -> & _ & Ht)|(m & _ & -> & _ & Ht)]];
    rewrite (new_events_app _ _ _ Ht); compute; split_and!;
    (lia || congruence || done).
Qed.

(** X20: a second run on the same page is quiet.  After a run that ended
    normally, when the text it wrote reads back as the snapshot it wrote
    and every price equals itself, a further run on the same page ends
    normally, opens no SMTP session and rewrites the state file with the
    same text, so that the files stay as they are. *)
Theorem second_run_is_quiet (cfg' : config) (ext' : external) (w : world) (page : soup)
    (items : list Item) :
  let w1 := (main cfg ext w).2 in
  http_get ext SEARCH_URL = Some page →
  http_get ext' SEARCH_URL = Some page →
  scrape_cards (product_cards page) = Ok items →
  (main cfg ext w).1 = Ok tt →
  json_load (json_dump (snapshot_of items)) = Some (snapshot_of items) →
  Forall (λ it, py_ne (item_price it) (item_price it) = false) items →
  main cfg' ext' w1 =
    (Ok tt,
     {| files := files w1;
        trace := trace w1 ++ [EvHttpGet SEARCH_URL;
                              EvWrite STATE_FILE (json_dump (snapshot_of items))] |}).
Proof.
  cbv zeta. intros Hget Hget' Hitems Hok Hrt Hself.
  assert (files (main cfg ext w).2 !! STATE_FILE = Some (json_dump (snapshot_of items)))
    as Hfile.
  { pose proof (main_outcome cfg ext w) as Hrun. cbv zeta in Hrun.
    destruct Hrun as [(e & _ & Hr & _)|(old & _ & Hrun)]; [congruence|].
    destruct Hrun as [(_ & Hr & _)|(page' & Hget'' & Hrun)]; [congruence|].
    assert (page' = page) as -> by congruence.
    destruct Hrun as [(_ & Hr & _)|(items' & Hitems' & Hrun)]; [congruence|].
    assert (items' = items) as -> by congruence.
    destruct Hrun as [(_ & -> & _)|[(m & _ & _ & -> & _)|(m & _ & Hr & _)]];
      [by rewrite lookup_insert_eq.. | congruence]. }
  set (w1 := (main cfg ext w).2) in *.
  assert (omap (changed_of (snapshot_of items)) items = []) as Hquiet.
  { apply omap_all_None. intros it Hit. unfold changed_of, snapshot_of.
    rewrite foldl_insert_lookup, lookup_empty.
    rewrite find_has_key_NoDup.
    - simpl. rewrite Forall_forall in Hself. by rewrite (Hself it Hit).
    - rewrite fmap_reverse. by eapply NoDup_reverse, scrape_cards_NoDup.
    - by apply elem_of_reverse. }
  rewrite main_eq. unfold load_state. rewrite Hfile, Hrt, Hget', Hitems.
  rewrite Hquiet.
  assert (alert_due (snapshot_of items) [] = false) as ->.
  { unfold alert_due. by rewrite andb_false_r. }
  unfold save_state, fetched. simpl. rewrite insert_id by done.
  by rewrite <- app_assoc.
Qed.

(** X21: the alert of a run names every change of that run: a message
    handed to the server in a run contains, for each item of the run's
    changed list, its name and the lines of its old price, its new price
    and its link. *)
Theorem run_alert_names_every_change (w : world) (msg : email) (ok : bool) :
  EvSmtp msg ok ∈ new_events w (main cfg ext w).2 →
  ∃ old page items,
    load_state w = (Ok old, w) ∧ http_get ext SEARCH_URL = Some page ∧
    scrape_cards (product_cards page) = Ok items ∧
    ∀ c, c ∈ (diff old items).2 →
      substring_of (changed_name c) (email_body msg) ∧
      substring_of ("Old price: " +:+ str_of_float (changed_old_price c))
        (email_body msg) ∧
      substring_of ("New price: " +:+ str_of_float (changed_price c))
        (email_body msg) ∧
      substring_of ("Link: " +:+ changed_url c) (email_body msg).
Proof.
  rewrite main_eq.
  destruct (load_state w) as [[old|e] w0] eqn:Hload;
    pose proof (load_state_world _ _ _ Hload) as ->.
  2:{ cbn [snd]. rewrite (new_events_app w w []) by (by rewrite app_nil_r).
      by intros ?%elem_of_nil. }
  destruct (http_get ext SEARCH_URL) as [page|] eqn:Hget.
  2:{ cbn [snd]. rewrite (new_events_app w (fetched w) [EvHttpGet SEARCH_URL]) by done.
      intros Hin. in_list Hin. done. }
  destruct (scrape_cards (product_cards page)) as [items|e] eqn:Hitems.
  2:{ cbn [snd]. rewrite (new_events_app w (fetched w) [EvHttpGet SEARCH_URL]) by done.
      intros Hin. in_list Hin. done. }
  cbv zeta. intros Hin. exists old, page, items. do 3 (split; [done|]).
  rewrite diff_eq. cbn [snd].
  set (changed := omap (changed_of old) items) in *.
  assert (email_body msg = join (nl +:+ "---" +:+ nl) (alert_lines <$> changed))
    as Hbody.
  { destruct (alert_due old changed).
    - destruct (send_alert_session cfg ext changed (fetched w))
        as [Hs|(m & o & Hbody & Hs)]; rewrite Hs in Hin.
      + unfold save_state, fetched in Hin. cbn in Hin.
        erewrite new_events_app in Hin by (cbn; by rewrite <- app_assoc).
        cbn [app] in Hin. in_list Hin; done.
      + destruct o; unfold save_state in Hin; cbn in Hin;
          (erewrite new_events_app in Hin by (cbn; by rewrite <- ?app_assoc));
          cbn [app] in Hin; in_list Hin; try done; by injection Hin as -> _.
    - unfold save_state, fetched in Hin. cbn in Hin.
      erewrite new_events_app in Hin by (cbn; by rewrite <- app_assoc).
      cbn [app] in Hin. in_list Hin; done. }
  intros c Hc. rewrite Hbody.
  destruct (alert_body_mentions changed c Hc) as (H1 & _ & H3 & H4 & H5). done.
Qed.

(** X22: the loop of the extractor raises exactly when some block of the
    page passes the keyword, size and price tests and has a link on which
    [urljoin] raises, wherever it stands on the page and whatever the
    blocks before it yielded; ValueError is the only exception of the
    loop; and when [urljoin] accepts every link of the page the loop
    returns. *)
Theorem bad_link_aborts_extraction (cards : list card) :
  (scrape_cards cards = Raise ValueError ↔
   ∃ c href, c ∈ cards ∧
     lacks_keyword (card_text c) = false ∧
     is_Some (is_small_size (card_text c)) ∧
     is_Some (parse_price (card_price_text c)) ∧
     card_href c = Some href ∧ urljoin SEARCH_URL href = None) ∧
  (∀ e, scrape_cards cards = Raise e → e = ValueError) ∧
  ((∀ c href, c ∈ cards → card_href c = Some href →
      is_Some (urljoin SEARCH_URL href)) →
   ∃ items, scrape_cards cards = Ok items).
Proof.
  assert (scrape_cards cards = Raise ValueError ↔
          ∃ c href, c ∈ cards ∧
            lacks_keyword (card_text c) = false ∧
            is_Some (is_small_size (card_text c)) ∧
            is_Some (parse_price (card_price_text c)) ∧
            card_href c = Some href ∧ urljoin SEARCH_URL href = None) as Hiff.
  { rewrite scrape_cards_keep_first.
    assert (keep_first <$> extract_all cards = Raise ValueError ↔
            extract_all cards = Raise ValueError) as ->.
    { destruct (extract_all cards); [done|]. simpl. done. }
    rewrite extract_all_Raise. split.
    - intros (c & Hc & (? & ? & ? & href & ? & ?)%extract_Raise).
      exists c, href. done.
    - intros (c & href & Hc & ? & ? & ? & ? & ?). exists c. split; [done|].
      apply extract_Raise. eauto 8. }
  split_and!; [done | apply scrape_cards_raises |].
  intros Hall. destruct (scrape_cards cards) as [items|e] eqn:Hs; [eauto|].
  assert (e = ValueError) as -> by (by eapply scrape_cards_raises).
  destruct (proj1 Hiff eq_refl) as (c & href & Hc & _ & _ & _ & Hhref & Hjoin).
  destruct (Hall c href Hc Hhref) as [url Hurl]. congruence.
Qed.


(** X24: [load_state] after [save_state] finds the state file and decodes
    exactly the text that [save_state] wrote, whatever the files held
    before: it returns what [json.load] makes of that text, or ends with
    the decoder's exception when [json.load] refuses it. *)
Theorem load_decodes_what_save_wrote (state : Snapshot) (w : world) :
  (save_state state w).1 = Ok tt ∧
  files (save_state state w).2 !! STATE_FILE = Some (json_dump state) ∧
  load_state (save_state state w).2 =
    (match json_load (json_dump state) with
     | Some loaded => Ok loaded
     | None => Raise JSONDecodeError
     end, (save_state state w).2).
Proof.
  split; [done|]. unfold load_state, save_state. simpl.
  rewrite lookup_insert_eq. split; [done|].
  by destruct (json_load (json_dump state)).
Qed.

End MoreRun.

(** ** The further properties at the sample blocks *)

Section MoreWitnesses.
Import Sample Sample2.

Lemma keyword_less_block_is_excluded_witness :
  ¬ substring_of "Squishmallow" (card_text other_toy) ∧
  scrape_cards (lib := PyRef.library) [cam; other_toy; jumbo] =
    scrape_cards (lib := PyRef.library) [cam; jumbo].
Proof.
  assert (¬ substring_of "Squishmallow" (card_text other_toy)) as Hno
    by (apply str_in_false; vm_compute; reflexivity).
  split; [exact Hno|].
  exact (proj2 (keyword_less_block_is_excluded (lib := PyRef.library)
                  [cam] other_toy [jumbo] Hno)).
Defined.

Lemma linkless_page_yields_one_item_witness :
  card_href loose_a = None ∧ card_href loose_b = None ∧
  ∃ items, scrape_cards (lib := PyRef.library) [loose_a; loose_b] = Ok items ∧
    length items ≤ 1.
Proof.
  split; [reflexivity|]. split; [reflexivity|].
  destruct (linkless_page_yields_one_item (lib := PyRef.library) [loose_a; loose_b])
    as (items & Hitems & Hlen & _).
  - intros c Hc. in_list Hc; subst c; reflexivity.
  - exists items. exact (conj Hitems Hlen).
Defined.

Lemma scrape_cards_sublist_witness :
  scrape_cards (lib := PyRef.library) cards = Ok [cam_item] ∧
  length [cam_item] ≤ length cards.
Proof.
  assert (scrape_cards (lib := PyRef.library) cards = Ok [cam_item]) as Hitems
    by (vm_compute; reflexivity).
  split; [exact Hitems|].
  exact (proj1 (proj2 (scrape_cards_sublist (lib := PyRef.library) cards [cam_item]
                         Hitems))).
Defined.

Lemma card_name_cases_witness :
  match card_name_el jumbo with
  | Some txt => card_name jumbo = txt
  | None =>
      (∃ before after,
         card_tag_texts jumbo = before ++ card_name jumbo :: after ∧
         substring_of "Squish" (card_name jumbo) ∧
         ∀ txt, txt ∈ before → ¬ substring_of "Squish" txt) ∨
      ((∀ txt, txt ∈ card_tag_texts jumbo → ¬ substring_of "Squish" txt) ∧
       card_name jumbo = slice_to 80 (card_text jumbo) ∧
       String.length (card_name jumbo) ≤ 80 ∧
       ∃ rest, card_text jumbo = card_name jumbo +:+ rest)
  end.
Proof. exact (card_name_cases jumbo). Defined.

Lemma amount_12_50 : amount "12.50".
Proof.
  exists "12", "5"%char, "0"%char. split_and!; try done.
  apply all_digits_cons. split; [done|].
  apply all_digits_cons. split; [done|]. apply all_digits_nil.
Qed.

Lemma parse_price_takes_first_amount_witness :
  str_in "$" "Now " = false ∧ amount "12.50" ∧
  parse_price ("Now " +:+ String "$"%char "12.50" +:+ " or $9.99") =
    Some (py_float "12.50").
Proof.
  split; [reflexivity|]. split; [exact amount_12_50|].
  exact (parse_price_takes_first_amount "Now " "12.50" " or $9.99"
           eq_refl amount_12_50).
Defined.

Lemma parse_price_needs_dollar_witness :
  str_in "$" "12.50 USD" = false ∧ parse_price "12.50 USD" = None.
Proof.
  split; [reflexivity|]. exact (parse_price_needs_dollar "12.50 USD" eq_refl).
Defined.

Lemma py_float_amount_witness :
  is_digit "5" = true ∧ is_digit "0" = true ∧
  py_float ("12" +:+ frac "5" "0") = float_of_ratio 1250 100.
Proof.
  split; [reflexivity|]. split; [reflexivity|].
  refine (py_float_amount "12" "5" "0" _ eq_refl eq_refl).
  apply all_digits_cons. split; [reflexivity|].
  apply all_digits_cons. split; [reflexivity|]. apply all_digits_nil.
Defined.

Lemma send_alert_opens_one_session_witness :
  cam_change ≠ [] ∧
  ∃ msg,
    send_alert (lib := PyRef.library) cfg_set ext_smtp_down cam_change first_world =
      (Raise SMTPException,
       {| files := ∅; trace := [EvSmtp msg false] |}) ∧
    email_from msg = "me@example.com" ∧
    email_to msg = "5550100@sms.example.com".
Proof.
  assert (cam_change ≠ []) as Hne by (vm_compute; discriminate).
  split; [exact Hne|].
  destruct (send_alert_opens_one_session (lib := PyRef.library) cfg_set ext_smtp_down
              cam_change first_world "me@example.com" "app-password"
              "5550100@sms.example.com" Hne eq_refl eq_refl eq_refl)
    as (msg & Hrun & Hfrom & Hto & _); [discriminate..|].
  exists msg. split; [exact Hrun|]. split; [exact Hfrom | exact Hto].
Defined.

Lemma empty_credential_sends_nothing_witness :
  EMAIL_USER cfg_empty_user = Some "" ∧
  send_alert (lib := PyRef.library) cfg_empty_user ext_up cam_change first_world =
    (Ok tt, first_world).
Proof.
  split; [reflexivity|].
  apply empty_credential_sends_nothing. left. reflexivity.
Defined.

Lemma alert_body_lists_every_item_witness :
  EvSmtp cam_alert true ∈
    new_events first_world
      (send_alert (lib := PyRef.library) cfg_set ext_up cam_change first_world).2 ∧
  cam_changed ∈ cam_change ∧
  substring_of ("Link: " +:+ changed_url cam_changed) (email_body cam_alert).
Proof.
  assert (cam_changed ∈ cam_change) as Hc by (vm_compute; constructor).
  assert (EvSmtp cam_alert true ∈
            new_events first_world
              (send_alert (lib := PyRef.library) cfg_set ext_up cam_change
                 first_world).2) as Hev by (vm_compute; constructor).
  split; [exact Hev|]. split; [exact Hc|].
  exact (proj2 (proj2 (proj2 (proj2
           (alert_body_lists_every_item (lib := PyRef.library) cfg_set ext_up
              cam_change first_world cam_alert true cam_changed Hev Hc))))).
Defined.

Lemma vanished_keys_are_silent_witness :
  ("https://www.frysfood.com/p/gone/0007" ∉ item_key <$> [cam_item]) ∧
  diff (delete "https://www.frysfood.com/p/gone/0007" old_state) [cam_item] =
    diff old_state [cam_item].
Proof.
  assert ("https://www.frysfood.com/p/gone/0007" ∉ item_key <$> [cam_item]) as Hno.
  { cbn [fmap list_fmap]. intros Hin. in_list Hin. discriminate Hin. }
  split; [exact Hno|].
  exact (proj2 (vanished_keys_are_silent old_state [cam_item] _) Hno).
Defined.

Lemma snapshot_entry_is_first_block_witness :
  scrape_cards (lib := PyRef.library) cards = Ok [cam_item] ∧
  (diff ∅ [cam_item]).1 !! cam_url = Some (entry_of cam_item) ∧
  entry_url (entry_of cam_item) = cam_url.
Proof.
  assert (scrape_cards (lib := PyRef.library) cards = Ok [cam_item]) as Hitems
    by (vm_compute; reflexivity).
  assert ((diff ∅ [cam_item]).1 !! cam_url = Some (entry_of cam_item)) as Hlook
    by (vm_compute; reflexivity).
  split; [exact Hitems|]. split; [exact Hlook|].
  destruct (snapshot_entry_is_first_block (lib := PyRef.library) ∅ cards [cam_item]
              cam_url Hitems) as (accepted & _ & _ & Hurl).
  exact (Hurl _ Hlook).
Defined.

Lemma main_touches_only_state_file_witness :
  "notes.txt" ≠ STATE_FILE ∧
  files (main (lib := PyRef.library) cfg_set ext_up later_world).2 !! "notes.txt" =
    files later_world !! "notes.txt".
Proof.
  assert ("notes.txt" ≠ STATE_FILE) as Hne by discriminate.
  split; [exact Hne|].
  exact (main_touches_only_state_file (lib := PyRef.library) cfg_set ext_up
           later_world "notes.txt" Hne).
Defined.

Lemma second_run_is_quiet_witness :
  (main (lib := PyRef.library) cfg_set ext_up later_world).1 = Ok tt ∧
  (main (lib := PyRef.library) cfg_set ext_smtp_down
     (main (lib := PyRef.library) cfg_set ext_up later_world).2).1 = Ok tt.
Proof.
  assert ((main (lib := PyRef.library) cfg_set ext_up later_world).1 = Ok tt) as Hok
    by (vm_compute; reflexivity).
  split; [exact Hok|].
  assert (scrape_cards (lib := PyRef.library) (product_cards page) = Ok [cam_item])
    as Hitems by (vm_compute; reflexivity).
  rewrite (second_run_is_quiet (lib := PyRef.library) cfg_set ext_up cfg_set
             ext_smtp_down later_world page [cam_item] eq_refl eq_refl Hitems Hok).
  - reflexivity.
  - vm_compute. reflexivity.
  - vm_compute. repeat constructor.
Defined.

Lemma fetch_failure_changes_nothing_witness :
  (main (lib := PyRef.library) cfg_set ext_down later_world).1 =
    Raise RequestException ∧
  files (main (lib := PyRef.library) cfg_set ext_down later_world).2 =
    files later_world.
Proof.
  assert ((main (lib := PyRef.library) cfg_set ext_down later_world).1 =
          Raise RequestException) as Hr by (vm_compute; reflexivity).
  split; [exact Hr|].
  exact (proj1 (proj2 (fetch_failure_changes_nothing (lib := PyRef.library)
                         cfg_set ext_down later_world) Hr)).
Defined.

Lemma unreadable_state_stops_the_run_witness :
  (main (lib := PyRef.library) cfg_set ext_up broken_world).1 =
    Raise JSONDecodeError ∧
  (main (lib := PyRef.library) cfg_set ext_up broken_world).2 = broken_world.
Proof.
  assert ((main (lib := PyRef.library) cfg_set ext_up broken_world).1 =
          Raise JSONDecodeError) as Hr by (vm_compute; reflexivity).
  split; [exact Hr|].
  exact (proj2 (unreadable_state_stops_the_run (lib := PyRef.library)
                  cfg_set ext_up broken_world) Hr).
Defined.

Lemma run_alert_names_every_change_witness :
  EvSmtp cam_alert true ∈
    new_events later_world (main (lib := PyRef.library) cfg_set ext_up later_world).2 ∧
  ∃ old page items,
    load_state (lib := PyRef.library) later_world = (Ok old, later_world) ∧
    http_get ext_up SEARCH_URL = Some page ∧
    scrape_cards (lib := PyRef.library) (product_cards page) = Ok items ∧
    ∀ c, c ∈ (diff old items).2 →
      substring_of (changed_name c) (email_body cam_alert) ∧
      substring_of ("Old price: " +:+ PyRef.float_repr "inf" "nan" (changed_old_price c))
        (email_body cam_alert) ∧
      substring_of ("New price: " +:+ PyRef.float_repr "inf" "nan" (changed_price c))
        (email_body cam_alert) ∧
      substring_of ("Link: " +:+ changed_url c) (email_body cam_alert).
Proof.
  assert (EvSmtp cam_alert true ∈
            new_events later_world
              (main (lib := PyRef.library) cfg_set ext_up later_world).2) as Hev
    by (vm_compute; repeat constructor).
  split; [exact Hev|].
  exact (run_alert_names_every_change (lib := PyRef.library) cfg_set ext_up
           later_world cam_alert true Hev).
Defined.

(** Cam's block is accepted first; the link of the next block stops the
    loop all the same. *)
Lemma bad_link_aborts_extraction_witness :
  (bad_link ∈ [cam; bad_link] ∧
   lacks_keyword (card_text bad_link) = false ∧
   is_Some (is_small_size (card_text bad_link)) ∧
   is_Some (parse_price (card_price_text bad_link)) ∧
   card_href bad_link = Some "//[" ∧
   urljoin (Library := PyRef.library) SEARCH_URL "//[" = None) ∧
  scrape_cards (lib := PyRef.library) [cam; bad_link] = Raise ValueError.
Proof.
  assert (bad_link ∈ [cam; bad_link] ∧
          lacks_keyword (card_text bad_link) = false ∧
          is_Some (is_small_size (card_text bad_link)) ∧
          is_Some (parse_price (card_price_text bad_link)) ∧
          card_href bad_link = Some "//[" ∧
          urljoin (Library := PyRef.library) SEARCH_URL "//[" = None) as Hbad.
  { split; [right; left|]. split; [vm_compute; reflexivity|].
    split; [vm_compute; eexists; reflexivity|].
    split; [vm_compute; eexists; reflexivity|].
    split; reflexivity. }
  split; [exact Hbad|].
  apply (proj2 (proj1 (bad_link_aborts_extraction (lib := PyRef.library)
                         [cam; bad_link]))).
  exists bad_link, "//[". exact Hbad.
Defined.


End MoreWitnesses.
